(** * tinycss.decoding: decoding stylesheets from bytes to Unicode

    A shallow embedding of [src/tinycss/decoding.py] and the properties of
    its encoding-resolution algorithm.

    - Byte strings are [list byte]; Unicode strings are lists of code
      points ([N]); encoding names are Unicode strings, as in the source
      (which runs under [unicode_literals]).
    - [bytes.decode(encoding)] is the language's decode primitive.  It is
      a parameter ([codec]) of the embedding; a reference instance
      [py_codec], covering the encodings named below, is used to evaluate
      the program on concrete inputs.
    - Exceptions are explicit: a computation returns [Ok v] or [Raise e]. *)

From Stdlib Require Import List String Ascii NArith ZArith Bool Arith Lia.
From Stdlib Require Import Strings.Byte.
Import ListNotations.
Local Open Scope list_scope.
Local Open Scope N_scope.

(** ** Data *)

Definition bytes := list byte.
Definition char := N.
Definition text := list char.

(** A string literal of the source, as a Unicode string. *)
Definition str (s : string) : text := map N_of_ascii (list_ascii_of_string s).
Arguments str _%_string.

(** The bytes of an ASCII string literal. *)
Definition ascii_bytes (s : string) : bytes :=
  map byte_of_ascii (list_ascii_of_string s).
Arguments ascii_bytes _%_string.

(** The character U+0022, and the byte-order mark U+FEFF. *)
Definition dquote : char := 34.
Definition BOM : char := 0xFEFF.

(** The exceptions.  [try_encoding] catches the first two; [IndexError]
    comes from indexing a string or a match; the others are what else the
    decode primitive may raise ([ValueError] for a name with a NUL
    character in it, [UnicodeError], or any other class), which nothing
    in the program catches. *)
Inductive exn :=
| UnicodeDecodeError
| LookupError
| IndexError
| ValueError
| UnicodeError
| OtherError (name : string).

Inductive result (A : Type) :=
| Ok (a : A)
| Raise (e : exn).
Arguments Ok {A} a.
Arguments Raise {A} e.

Definition bind {A B} (c : result A) (k : A -> result B) : result B :=
  match c with
  | Ok a => k a
  | Raise e => Raise e
  end.

Notation "x <- c ;; k" := (bind c (fun x => k))
  (at level 61, c at next level, right associativity).

(** The decode primitive: [css_bytes.decode(encoding)]. *)
Definition codec := text -> bytes -> result text.

(** ** Python string and bytes operations used by the source *)

Definition text_eqb (s t : text) : bool :=
  if list_eq_dec N.eq_dec s t then true else false.

(** [s.replace(c, '')] for a one-character [c]. *)
Definition remove_char (c : char) (s : text) : text :=
  filter (fun x => negb (x =? c)) s.

(** [s.lower()], on the ASCII letters.  It is only applied to the result
    of [decode('ascii', 'replace')], whose characters are ASCII or U+FFFD
    (see [ascii_replace_range]); there it is Python's [lower]. *)
Definition lower_char (c : char) : char :=
  if (65 <=? c) && (c <=? 90) then c + 32 else c.
Definition lower (s : text) : text := map lower_char s.

Fixpoint startswith (s prefix : text) {struct prefix} : bool :=
  match prefix, s with
  | [], _ => true
  | p :: prefix', c :: s' => (c =? p) && startswith s' prefix'
  | _ :: _, [] => false
  end.

(** [b.decode('ascii', 'replace')] *)
Definition ascii_replace (b : bytes) : text :=
  map (fun x => if Byte.to_N x <? 128 then Byte.to_N x else 0xFFFD) b.

(** Truth value of an optional string argument: [None] and [''] are false. *)
Definition truthy (s : option text) : bool :=
  match s with
  | Some (_ :: _) => true
  | _ => false
  end.

(** [operator.itemgetter(slice(start, None, step))], as built by
    [Slice[start::step]]: the items at [start], [start+step], ... *)
Fixpoint every {A} (step skip : nat) (l : list A) : list A :=
  match l with
  | [] => []
  | x :: l' =>
      match skip with
      | O => x :: every step (Nat.pred step) l'
      | S k => every step k l'
      end
  end.

Definition Slice {A} (start step : nat) (l : list A) : list A :=
  every step start l.

(** ** [hex2re] and the patterns *)

Definition hex_digit (c : ascii) : option N :=
  let n := N_of_ascii c in
  if (48 <=? n) && (n <=? 57) then Some (n - 48)
  else if (65 <=? n) && (n <=? 70) then Some (n - 55)
  else if (97 <=? n) && (n <=? 102) then Some (n - 87)
  else None.

Fixpoint unhexlify (s : list ascii) : option bytes :=
  match s with
  | [] => Some []
  | hi :: lo :: s' =>
      match hex_digit hi, hex_digit lo, unhexlify s' with
      | Some h, Some l, Some bs =>
          option_map (fun b => b :: bs) (Byte.of_N (16 * h + l))
      | _, _, _ => None
      end
  | _ => None
  end.

(** [re.escape(unhexlify(hex_data.replace(' ', '').encode('ascii')))].
    The source builds the text of a pattern, every byte escaped; the
    embedding keeps the bytes that this text stands for, which [re_lit]
    and [re_lit_group_lit] take as literals.  Every literal of the table
    is well-formed hexadecimal (see [table_literals_wf]). *)
Definition hex2re (hex_data : string) : bytes :=
  let digits :=
    filter (fun c => negb (Ascii.eqb c " "%char)) (list_ascii_of_string hex_data) in
  match unhexlify digits with
  | Some bs => bs
  | None => []
  end.
Arguments hex2re _%_string.

(** One position of the repeated unit of a pattern: an escaped byte such
    as [\x00], or the class [[^\x22]]. *)
Inductive atom :=
| Esc (b : byte)
| Except (b : byte).

(** The two shapes of compiled pattern in the table:
    [hex2re(h)], and [hex2re(h1) + b'((unit)*?)' + hex2re(h2)], where
    group 1 is the lazily repeated part. *)
Inductive regex :=
| re_lit (l : bytes)
| re_lit_group_lit (l1 : bytes) (unit : list atom) (l2 : bytes).

(** A match object; [group1] is [None] when the pattern has no group. *)
Record Match := { group1 : option bytes }.

(** [m.group(1)] *)
Definition group (m : Match) : result bytes :=
  match group1 m with
  | Some g => Ok g
  | None => Raise IndexError
  end.

(** Match a literal at the start of [bs]; the rest of the input. *)
Fixpoint match_lit (l bs : bytes) : option bytes :=
  match l, bs with
  | [], _ => Some bs
  | x :: l', b :: bs' => if Byte.eqb x b then match_lit l' bs' else None
  | _ :: _, [] => None
  end.

Definition match_atom (a : atom) (b : byte) : bool :=
  match a with
  | Esc x => Byte.eqb x b
  | Except x => negb (Byte.eqb x b)
  end.

(** Match one iteration of the unit; the bytes consumed and the rest. *)
Fixpoint match_unit (u : list atom) (bs : bytes) : option (bytes * bytes) :=
  match u, bs with
  | [], _ => Some ([], bs)
  | a :: u', b :: bs' =>
      if match_atom a b then
        match match_unit u' bs' with
        | Some (g, r) => Some (b :: g, r)
        | None => None
        end
      else None
  | _ :: _, [] => None
  end.

(** The lazy repetition [(unit)*?] followed by the literal [l2]: leave the
    loop as soon as [l2] matches, otherwise take one more iteration.
    [acc] is the text of the group so far. *)
Fixpoint lazy_star (fuel : nat) (u : list atom) (l2 : bytes)
         (bs acc : bytes) : option bytes :=
  match match_lit l2 bs with
  | Some _ => Some acc
  | None =>
      match fuel with
      | O => None
      | S fuel' =>
          match match_unit u bs with
          | Some (g, r) => lazy_star fuel' u l2 r (acc ++ g)
          | None => None
          end
      end
  end.

(** [re.compile(r).match(bs)]: anchored at offset 0.  Every iteration of
    a unit consumes at least one byte, so [length bs] iterations are
    enough (see [lazy_star_fuel]). *)
Definition re_match (r : regex) (bs : bytes) : option Match :=
  match r with
  | re_lit l =>
      match match_lit l bs with
      | Some _ => Some {| group1 := None |}
      | None => None
      end
  | re_lit_group_lit l1 u l2 =>
      match match_lit l1 bs with
      | Some r1 =>
          match lazy_star (List.length r1) u l2 r1 [] with
          | Some g => Some {| group1 := Some g |}
          | None => None
          end
      | None => None
      end
  end.

(** ** The table of magic numbers *)

(** [encoding] is a string, or [(slice_, endianness)] for "as specified". *)
Inductive encoding_spec :=
| Name (encoding : text)
| AsSpecified (extract : bytes -> bytes) (endianness : text).

Definition entry : Type := nat * encoding_spec * regex.

Definition any_but_quote : atom := Except x22.

Definition ENCODING_MAGIC_NUMBERS : list entry :=
  [ (3%nat, AsSpecified (Slice 0 1) (str EmptyString), re_lit_group_lit
        (hex2re "EF BB BF 40 63 68 61 72 73 65 74 20 22")
        [any_but_quote]
        (hex2re "22 3B"));

    (3%nat, Name (str "UTF-8"), re_lit
        (hex2re "EF BB BF"));

    (0%nat, AsSpecified (Slice 0 1) (str EmptyString), re_lit_group_lit
        (hex2re "40 63 68 61 72 73 65 74 20 22")
        [any_but_quote]
        (hex2re "22 3B"));

    (2%nat, AsSpecified (Slice 1 2) (str "-BE"), re_lit_group_lit
        (hex2re ("FE FF 00 40 00 63 00 68 00 61 00 72 00 73 00 65 00"
                 ++ "74 00 20 00 22"))
        [Esc x00; any_but_quote]
        (hex2re "00 22 00 3B"));

    (0%nat, AsSpecified (Slice 1 2) (str "-BE"), re_lit_group_lit
        (hex2re ("00 40 00 63 00 68 00 61 00 72 00 73 00 65 00 74 00"
                 ++ "20 00 22"))
        [Esc x00; any_but_quote]
        (hex2re "00 22 00 3B"));

    (2%nat, AsSpecified (Slice 0 2) (str "-LE"), re_lit_group_lit
        (hex2re ("FF FE 40 00 63 00 68 00 61 00 72 00 73 00 65 00 74"
                 ++ "00 20 00 22 00"))
        [any_but_quote; Esc x00]
        (hex2re "22 00 3B 00"));

    (0%nat, AsSpecified (Slice 0 2) (str "-LE"), re_lit_group_lit
        (hex2re ("40 00 63 00 68 00 61 00 72 00 73 00 65 00 74 00 20"
                 ++ "00 22 00"))
        [any_but_quote; Esc x00]
        (hex2re "22 00 3B 00"));

    (4%nat, AsSpecified (Slice 3 4) (str "-BE"), re_lit_group_lit
        (hex2re ("00 00 FE FF 00 00 00 40 00 00 00 63 00 00 00 68 00"
                 ++ "00 00 61 00 00 00 72 00 00 00 73 00 00 00 65 00 00"
                 ++ "00 74 00 00 00 20 00 00 00 22"))
        [Esc x00; Esc x00; Esc x00; any_but_quote]
        (hex2re "00 00 00 22 00 00 00 3B"));

    (0%nat, AsSpecified (Slice 3 4) (str "-BE"), re_lit_group_lit
        (hex2re ("00 00 00 40 00 00 00 63 00 00 00 68 00 00 00 61 00"
                 ++ "00 00 72 00 00 00 73 00 00 00 65 00 00 00 74 00 00"
                 ++ "00 20 00 00 00 22"))
        [Esc x00; Esc x00; Esc x00; any_but_quote]
        (hex2re "00 00 00 22 00 00 00 3B"));

    (4%nat, AsSpecified (Slice 0 4) (str "-LE"), re_lit_group_lit
        (hex2re ("FF FE 00 00 40 00 00 00 63 00 00 00 68 00 00 00 61"
                 ++ "00 00 00 72 00 00 00 73 00 00 00 65 00 00 00 74 00"
                 ++ "00 00 20 00 00 00 22 00 00 00"))
        [any_but_quote; Esc x00; Esc x00; Esc x00]
        (hex2re "22 00 00 00 3B 00 00 00"));

    (0%nat, AsSpecified (Slice 0 4) (str "-LE"), re_lit_group_lit
        (hex2re ("40 00 00 00 63 00 00 00 68 00 00 00 61 00 00 00 72"
                 ++ "00 00 00 73 00 00 00 65 00 00 00 74 00 00 00 20 00"
                 ++ "00 00 22 00 00 00"))
        [any_but_quote; Esc x00; Esc x00; Esc x00]
        (hex2re "22 00 00 00 3B 00 00 00"));

    (4%nat, Name (str "UTF-32-BE"), re_lit
        (hex2re "00 00 FE FF"));

    (4%nat, Name (str "UTF-32-LE"), re_lit
        (hex2re "FF FE 00 00"));

    (2%nat, Name (str "UTF-16-BE"), re_lit
        (hex2re "FE FF"));

    (2%nat, Name (str "UTF-16-LE"), re_lit
        (hex2re "FF FE")) ].

(** ** [try_encoding] and [decode] *)

Section Decode.

Variable decode_bytes : codec.

(** [css_unicode[0]] *)
Definition first_char (css_unicode : text) : result char :=
  match css_unicode with
  | c :: _ => Ok c
  | [] => Raise IndexError
  end.

(** The value returned is [None] (Python's [None]) or a string. *)
Definition try_encoding (css_bytes : bytes) (encoding : text)
           (fallback : bool) : result (option text) :=
  match decode_bytes encoding css_bytes with
  | Raise e =>
      match e with
      | UnicodeDecodeError | LookupError =>
          if negb fallback then Raise e else Ok None
      | _ => Raise e
      end
  | Ok css_unicode =>
      c <- first_char css_unicode ;;
      if c =? BOM then Ok (Some (tl css_unicode))
      else Ok (Some css_unicode)
  end.

(** The encoding to try for a matched entry: the entry's name, or the
    name found in the [@charset] rule, with the entry's endianness added
    when that name is a bare UTF-16 or UTF-32. *)
Definition is_bare_utf (encoding : text) : bool :=
  existsb
    (text_eqb (lower (remove_char (N_of_ascii "_")
                        (remove_char (N_of_ascii "-") encoding))))
    [str "utf16"; str "utf32"].

Definition has_at_charset (encoding : encoding_spec) : bool :=
  match encoding with
  | AsSpecified _ _ => true
  | Name _ => false
  end.

Definition candidate (encoding : encoding_spec) (m : Match) : result text :=
  match encoding with
  | AsSpecified extract endianness =>
      g <- group m ;;
      let encoding := ascii_replace (extract g) in
      if is_bare_utf encoding then Ok (encoding ++ endianness)
      else Ok encoding
  | Name encoding => Ok encoding
  end.

Definition at_charset_prefix : text := str "@charset " ++ [dquote].

(** Truth value of the result of [try_encoding]. *)
Definition nonempty (css_unicode : option text) : bool :=
  match css_unicode with
  | Some (_ :: _) => true
  | _ => false
  end.

Definition starts_with_at_charset (css_unicode : option text) : bool :=
  match css_unicode with
  | Some t => startswith t at_charset_prefix
  | None => false
  end.

(** The body of the loop for an entry whose pattern matched: [Some t]
    when the loop returns [t], [None] when it reaches [break]. *)
Definition sniff_entry (css_bytes : bytes) (encoding : encoding_spec)
           (m : Match) : result (option text) :=
  encoding' <- candidate encoding m ;;
  css_unicode <- try_encoding css_bytes encoding' true ;;
  if nonempty css_unicode
     && negb (has_at_charset encoding
              && negb (starts_with_at_charset css_unicode))
  then Ok css_unicode
  else Ok None.

(** The loop over the table: [Some t] when it returns [t], [None] when
    it is left by [break] or by exhaustion. *)
Fixpoint sniff (table : list entry) (css_bytes : bytes)
  : result (option text) :=
  match table with
  | [] => Ok None
  | (bom_size, encoding, pattern) :: table' =>
      match re_match pattern css_bytes with
      | Some m => sniff_entry css_bytes encoding m
      | None => sniff table' css_bytes
      end
  end.

(** [if encoding: css_unicode = try_encoding(css_bytes, encoding);
     if css_unicode is not None: return css_unicode] *)
Definition try_metadata (css_bytes : bytes) (encoding : option text)
  : result (option text) :=
  match encoding with
  | Some (c :: s) => try_encoding css_bytes (c :: s) true
  | _ => Ok None
  end.

(** Sequencing with early return: [Some t] ends the function with [t]. *)
Definition or_else (c : result (option text))
           (k : result (option text)) : result (option text) :=
  r <- c ;;
  match r with
  | Some t => Ok (Some t)
  | None => k
  end.

Fixpoint try_each (css_bytes : bytes) (encodings : list (option text))
  : result (option text) :=
  match encodings with
  | [] => Ok None
  | encoding :: rest =>
      or_else (try_metadata css_bytes encoding) (try_each css_bytes rest)
  end.

Definition decode_with (table : list entry) (css_bytes : bytes)
           (protocol_encoding linking_encoding document_encoding : option text)
  : result (option text) :=
  or_else (try_metadata css_bytes protocol_encoding)
    (or_else (sniff table css_bytes)
       (or_else (try_each css_bytes [linking_encoding; document_encoding])
          (try_encoding css_bytes (str "utf8") false))).

Definition decode := decode_with ENCODING_MAGIC_NUMBERS.

End Decode.

(** ** A reference decode primitive

    The strict decoders of the encodings the signature table names, with
    the spellings of their names that the codec registry accepts.  Any
    other name is unknown ([LookupError]). *)

Module Codecs.

Definition cont (b : byte) : option N :=
  let n := Byte.to_N b in
  if (0x80 <=? n) && (n <=? 0xBF) then Some (n - 0x80) else None.

Definition surrogate (c : N) : bool := (0xD800 <=? c) && (c <=? 0xDFFF).

(** A scalar value obtained from a multi-byte UTF-8 sequence whose
    shortest encodable value is [least]. *)
Definition scalar (least c : N) : result char :=
  if (least <=? c) && (c <=? 0x10FFFF) && negb (surrogate c)
  then Ok c else Raise UnicodeDecodeError.

Definition push (c : result char) (rest : result text) : result text :=
  x <- c ;; t <- rest ;; Ok (x :: t).

Fixpoint utf_8 (bs : bytes) : result text :=
  match bs with
  | [] => Ok []
  | b0 :: r0 =>
      let n0 := Byte.to_N b0 in
      if n0 <? 0x80 then push (Ok n0) (utf_8 r0)
      else if (0xC0 <=? n0) && (n0 <? 0xE0) then
        match r0 with
        | b1 :: r1 =>
            match cont b1 with
            | Some n1 => push (scalar 0x80 ((n0 - 0xC0) * 64 + n1)) (utf_8 r1)
            | None => Raise UnicodeDecodeError
            end
        | _ => Raise UnicodeDecodeError
        end
      else if (0xE0 <=? n0) && (n0 <? 0xF0) then
        match r0 with
        | b1 :: b2 :: r2 =>
            match cont b1, cont b2 with
            | Some n1, Some n2 =>
                push (scalar 0x800 (((n0 - 0xE0) * 64 + n1) * 64 + n2))
                     (utf_8 r2)
            | _, _ => Raise UnicodeDecodeError
            end
        | _ => Raise UnicodeDecodeError
        end
      else if (0xF0 <=? n0) && (n0 <? 0xF8) then
        match r0 with
        | b1 :: b2 :: b3 :: r3 =>
            match cont b1, cont b2, cont b3 with
            | Some n1, Some n2, Some n3 =>
                push (scalar 0x10000
                        ((((n0 - 0xF0) * 64 + n1) * 64 + n2) * 64 + n3))
                     (utf_8 r3)
            | _, _, _ => Raise UnicodeDecodeError
            end
        | _ => Raise UnicodeDecodeError
        end
      else Raise UnicodeDecodeError
  end.

(** The 16-bit code units of a byte string, big- or little-endian. *)
Fixpoint units16 (big : bool) (bs : bytes) : result (list N) :=
  match bs with
  | [] => Ok []
  | b0 :: b1 :: r =>
      us <- units16 big r ;;
      Ok ((if big then Byte.to_N b0 * 256 + Byte.to_N b1
           else Byte.to_N b1 * 256 + Byte.to_N b0) :: us)
  | _ => Raise UnicodeDecodeError
  end.

Fixpoint pair_surrogates (us : list N) : result text :=
  match us with
  | [] => Ok []
  | u :: r =>
      if (0xD800 <=? u) && (u <=? 0xDBFF) then
        match r with
        | v :: r' =>
            if (0xDC00 <=? v) && (v <=? 0xDFFF) then
              push (Ok (0x10000 + (u - 0xD800) * 1024 + (v - 0xDC00)))
                   (pair_surrogates r')
            else Raise UnicodeDecodeError
        | [] => Raise UnicodeDecodeError
        end
      else if (0xDC00 <=? u) && (u <=? 0xDFFF) then Raise UnicodeDecodeError
      else push (Ok u) (pair_surrogates r)
  end.

Definition utf_16 (big : bool) (bs : bytes) : result text :=
  us <- units16 big bs ;; pair_surrogates us.

Fixpoint utf_32 (big : bool) (bs : bytes) : result text :=
  match bs with
  | [] => Ok []
  | b0 :: b1 :: b2 :: b3 :: r =>
      let n0 := Byte.to_N b0 in let n1 := Byte.to_N b1 in
      let n2 := Byte.to_N b2 in let n3 := Byte.to_N b3 in
      push (scalar 0 (if big then ((n0 * 256 + n1) * 256 + n2) * 256 + n3
                      else ((n3 * 256 + n2) * 256 + n1) * 256 + n0))
           (utf_32 big r)
  | _ => Raise UnicodeDecodeError
  end.

Fixpoint us_ascii (bs : bytes) : result text :=
  match bs with
  | [] => Ok []
  | b :: r =>
      if Byte.to_N b <? 0x80 then push (Ok (Byte.to_N b)) (us_ascii r)
      else Raise UnicodeDecodeError
  end.

Definition latin_1 (bs : bytes) : result text := Ok (map Byte.to_N bs).

(** UTF-16 and UTF-32 with no byte order in the name: a byte-order mark
    gives the order and is not part of the text; without one the order is
    the machine's, little-endian here. *)
Definition utf_16_any (bs : bytes) : result text :=
  match bs with
  | b0 :: b1 :: r =>
      if Byte.eqb b0 xff && Byte.eqb b1 xfe then utf_16 false r
      else if Byte.eqb b0 xfe && Byte.eqb b1 xff then utf_16 true r
      else utf_16 false bs
  | _ => utf_16 false bs
  end.

Definition utf_32_any (bs : bytes) : result text :=
  match bs with
  | b0 :: b1 :: b2 :: b3 :: r =>
      if Byte.eqb b0 xff && Byte.eqb b1 xfe
         && Byte.eqb b2 x00 && Byte.eqb b3 x00 then utf_32 false r
      else if Byte.eqb b0 x00 && Byte.eqb b1 x00
              && Byte.eqb b2 xfe && Byte.eqb b3 xff then utf_32 true r
      else utf_32 false bs
  | _ => utf_32 false bs
  end.

(** The registry's normal form of a name: lower case, with [_] for [-]. *)
Definition normalize (name : text) : text :=
  map (fun c => if c =? N_of_ascii "-" then N_of_ascii "_" else lower_char c)
      name.

Definition registry : list (list text * (bytes -> result text)) :=
  [ ([str "utf8"; str "utf_8"; str "u8"], utf_8);
    ([str "utf_16_be"; str "utf_16be"], utf_16 true);
    ([str "utf_16_le"; str "utf_16le"], utf_16 false);
    ([str "utf_32_be"; str "utf_32be"], utf_32 true);
    ([str "utf_32_le"; str "utf_32le"], utf_32 false);
    ([str "ascii"; str "us_ascii"], us_ascii);
    ([str "latin1"; str "latin_1"; str "iso_8859_1"; str "iso8859_1"],
     latin_1);
    ([str "utf_16"; str "utf16"; str "u16"], utf_16_any);
    ([str "utf_32"; str "utf32"; str "u32"], utf_32_any) ].

Fixpoint lookup (name : text)
         (r : list (list text * (bytes -> result text)))
  : option (bytes -> result text) :=
  match r with
  | [] => None
  | (names, d) :: r' =>
      if existsb (text_eqb name) names then Some d else lookup name r'
  end.

(** The encoders, for texts of scalar values. *)

Definition byte_of (n : N) : byte :=
  match Byte.of_N (n mod 256) with
  | Some b => b
  | None => x00
  end.

Definition unit16 (big : bool) (u : N) : bytes :=
  if big then [byte_of (u / 256); byte_of u]
  else [byte_of u; byte_of (u / 256)].

Definition units_of (c : char) : list N :=
  if c <? 0x10000 then [c]
  else [0xD800 + (c - 0x10000) / 1024; 0xDC00 + (c - 0x10000) mod 1024].

Definition encode_utf_16 (big : bool) (t : text) : bytes :=
  flat_map (unit16 big) (flat_map units_of t).

Definition unit32 (big : bool) (c : char) : bytes :=
  if big
  then [byte_of (c / 16777216); byte_of (c / 65536); byte_of (c / 256);
        byte_of c]
  else [byte_of c; byte_of (c / 256); byte_of (c / 65536);
        byte_of (c / 16777216)].

Definition encode_utf_32 (big : bool) (t : text) : bytes :=
  flat_map (unit32 big) t.

(** ASCII text in any encoding that extends ASCII. *)
Definition encode_ascii (t : text) : bytes := map byte_of t.

Definition scalar_value (c : char) : Prop :=
  c < 0x110000 /\ ~ (0xD800 <= c <= 0xDFFF).

End Codecs.

(** A name with a NUL character in it is refused before the registry is
    searched. *)
Definition py_codec : codec :=
  fun encoding css_bytes =>
    if existsb (N.eqb 0) encoding then Raise ValueError
    else
      match Codecs.lookup (Codecs.normalize encoding) Codecs.registry with
      | Some d => d css_bytes
      | None => Raise LookupError
      end.

(** ** Notions used to state the properties *)

(** A decoded text with one leading byte-order mark removed. *)
Definition strip_bom (t : text) : text :=
  match t with
  | c :: t' => if c =? BOM then t' else t
  | [] => []
  end.

Definition pattern_of (e : entry) : regex := snd e.
Definition encoding_of (e : entry) : encoding_spec := snd (fst e).

(** The first entry of the table whose pattern matches, with its match. *)
Fixpoint first_match (table : list entry) (css_bytes : bytes)
  : option (entry * Match) :=
  match table with
  | [] => None
  | e :: table' =>
      match re_match (pattern_of e) css_bytes with
      | Some m => Some (e, m)
      | None => first_match table' css_bytes
      end
  end.

(** No entry of the table matches. *)
Definition no_signature (table : list entry) (css_bytes : bytes) : Prop :=
  Forall (fun e => re_match (pattern_of e) css_bytes = None) table.

(** A metadata encoding that is absent, empty, unknown to the primitive,
    or under which the bytes do not decode. *)
Definition unusable (decode_bytes : codec) (css_bytes : bytes)
           (encoding : option text) : Prop :=
  truthy encoding = false \/
  exists name, encoding = Some name /\
    (decode_bytes name css_bytes = Raise LookupError \/
     decode_bytes name css_bytes = Raise UnicodeDecodeError).

(** Decidable form of [no_signature]. *)
Definition matches_none (table : list entry) (css_bytes : bytes) : bool :=
  forallb (fun e => match re_match (pattern_of e) css_bytes with
                    | None => true
                    | Some _ => false
                    end) table.

(** The literal a pattern starts with. *)
Definition lit_of (r : regex) : bytes :=
  match r with
  | re_lit l => l
  | re_lit_group_lit l1 _ _ => l1
  end.

(** Two literals that differ at a position both have. *)
Fixpoint clash (l l' : bytes) : bool :=
  match l, l' with
  | x :: l, y :: l' => negb (Byte.eqb x y) || clash l l'
  | _, _ => false
  end.

(** *** Style sheets that start with an [@charset] rule

    The forms in which the table recognises an [@charset] rule: in an
    encoding that extends ASCII, possibly after the UTF-8 byte-order mark,
    and in UTF-16 or UTF-32, of either byte order, with or without the
    byte-order mark. *)
Inductive form :=
| Ascii (bom : bool)
| Utf16 (big bom : bool)
| Utf32 (big bom : bool).

Definition has_bom (f : form) : bool :=
  match f with
  | Ascii bom | Utf16 _ bom | Utf32 _ bom => bom
  end.

(** The bytes of U+FEFF in that form. *)
Definition form_bom (f : form) : bytes :=
  match f with
  | Ascii true => [xef; xbb; xbf]
  | Utf16 true true => [xfe; xff]
  | Utf16 false true => [xff; xfe]
  | Utf32 true true => [x00; x00; xfe; xff]
  | Utf32 false true => [xff; xfe; x00; x00]
  | _ => []
  end.

(** The bytes of one ASCII character in that form. *)
Definition widen (f : form) (b : byte) : bytes :=
  match f with
  | Ascii _ => [b]
  | Utf16 true _ => [x00; b]
  | Utf16 false _ => [b; x00]
  | Utf32 true _ => [x00; x00; x00; b]
  | Utf32 false _ => [b; x00; x00; x00]
  end.

Definition form_endianness (f : form) : text :=
  match f with
  | Ascii _ => str EmptyString
  | Utf16 true _ | Utf32 true _ => str "-BE"
  | Utf16 false _ | Utf32 false _ => str "-LE"
  end.

(** The bytes of a style sheet in form [f] that starts with the rule
    [@charset "E";], [E] given by its ASCII bytes, and goes on with
    [rest]. *)
Definition at_charset_rule (E : bytes) : bytes :=
  ascii_bytes "@charset " ++ [x22] ++ E ++ [x22; x3b].

Definition encode_form (f : form) (E rest : bytes) : bytes :=
  form_bom f ++ flat_map (widen f) (at_charset_rule E) ++ rest.

(** The text of the rule [@charset "E";]. *)
Definition at_charset_text (name : text) : text :=
  at_charset_prefix ++ name ++ [dquote; N_of_ascii ";"].

(** The encoding that the declared name designates in form [f]: a bare
    UTF-16 or UTF-32 is that of the byte order of the form. *)
Definition declared_encoding (f : form) (name : text) : text :=
  if is_bare_utf name then name ++ form_endianness f else name.

(** The position of the entry for that form in the table, the literals
    of its pattern and the unit it repeats. *)
Definition form_entry (f : form) : nat :=
  match f with
  | Ascii true => 0
  | Ascii false => 2
  | Utf16 true true => 3
  | Utf16 true false => 4
  | Utf16 false true => 5
  | Utf16 false false => 6
  | Utf32 true true => 7
  | Utf32 true false => 8
  | Utf32 false true => 9
  | Utf32 false false => 10
  end%nat.

Definition form_prefix (f : form) : bytes :=
  form_bom f ++ flat_map (widen f) (ascii_bytes "@charset " ++ [x22]).

Definition form_suffix (f : form) : bytes :=
  flat_map (widen f) [x22; x3b].

Definition form_unit (f : form) : list atom :=
  match f with
  | Ascii _ => [any_but_quote]
  | Utf16 true _ => [Esc x00; any_but_quote]
  | Utf16 false _ => [any_but_quote; Esc x00]
  | Utf32 true _ => [Esc x00; Esc x00; Esc x00; any_but_quote]
  | Utf32 false _ => [any_but_quote; Esc x00; Esc x00; Esc x00]
  end.

Definition form_slice (f : form) : nat * nat :=
  match f with
  | Ascii _ => (0, 1)
  | Utf16 true _ => (1, 2)
  | Utf16 false _ => (0, 2)
  | Utf32 true _ => (3, 4)
  | Utf32 false _ => (0, 4)
  end%nat.

(** A text in form [f]: the byte-order mark of the form, if any, and the
    text in the encoding of the form. *)
Definition encode_body (f : form) (t : text) : bytes :=
  match f with
  | Ascii _ => Codecs.encode_ascii t
  | Utf16 big _ => Codecs.encode_utf_16 big t
  | Utf32 big _ => Codecs.encode_utf_32 big t
  end.

Definition encode_text (f : form) (t : text) : bytes :=
  form_bom f ++ encode_body f t.

(** The characters that form [f] is used for here: ASCII in the
    ASCII-compatible forms, any scalar value in the others. *)
Definition encodable (f : form) (c : char) : Prop :=
  match f with
  | Ascii _ => c < 128
  | _ => Codecs.scalar_value c
  end.

(** The reference decoders that read form [f]. *)
Definition form_decoders (f : form) : list (bytes -> result text) :=
  match f with
  | Ascii true => [Codecs.utf_8]
  | Ascii false => [Codecs.utf_8; Codecs.us_ascii; Codecs.latin_1]
  | Utf16 big _ => [Codecs.utf_16 big]
  | Utf32 big _ => [Codecs.utf_32 big]
  end.

(** A name for the encoding of each form. *)
Definition form_name (f : form) : bytes :=
  match f with
  | Ascii true => ascii_bytes "utf-8"
  | Ascii false => ascii_bytes "ISO-8859-1"
  | Utf16 _ _ => ascii_bytes "UTF-16"
  | Utf32 _ _ => ascii_bytes "UTF-32"
  end.

(** A name for the encoding of each form that says its byte order. *)
Definition form_explicit_name (f : form) : bytes :=
  match f with
  | Ascii true => ascii_bytes "UTF-8"
  | Ascii false => ascii_bytes "us-ascii"
  | Utf16 true _ => ascii_bytes "UTF-16BE"
  | Utf16 false _ => ascii_bytes "utf-16le"
  | Utf32 true _ => ascii_bytes "UTF-32BE"
  | Utf32 false _ => ascii_bytes "utf_32_le"
  end.

(** *** Plain ASCII text *)

(** A byte of ASCII text: not NUL, below 128. *)
Definition ascii_char (b : byte) : Prop :=
  0 < Byte.to_N b /\ Byte.to_N b < 128.

(** The bytes start with a rule [@charset "...";]. *)
Definition has_at_charset_rule (css_bytes : bytes) : Prop :=
  exists E rest, css_bytes = at_charset_rule E ++ rest.

(** Among its first two bytes, a literal has one that is no ASCII
    character. *)
Definition not_ascii (b : byte) : bool :=
  (Byte.to_N b =? 0) || (128 <=? Byte.to_N b).

Definition excludes_ascii (l : bytes) : bool :=
  match l with
  | x :: y :: _ => not_ascii x || not_ascii y
  | [x] => not_ascii x
  | [] => false
  end.

(** A metadata encoding on which the primitive, when it fails, fails
    in one of the two ways that [try_encoding] catches. *)
Definition fails_softly (decode_bytes : codec) (css_bytes : bytes)
           (encoding : option text) : Prop :=
  forall name e,
    encoding = Some name ->
    decode_bytes name css_bytes = Raise e ->
    e = UnicodeDecodeError \/ e = LookupError.

(** ** The pattern matcher *)

Lemma match_lit_app (l tail : bytes) : match_lit l (l ++ tail) = Some tail.
Proof.
  induction l as [|x l IH]; simpl; [reflexivity|].
  now rewrite (byte_dec_lb (eq_refl x)).
Qed.

Lemma match_lit_sound (l bs r : bytes) :
  match_lit l bs = Some r -> bs = l ++ r.
Proof.
  revert bs; induction l as [|x l IH]; intros [|b bs]; simpl; try congruence.
  destruct (Byte.eqb x b) eqn:E; [|discriminate].
  apply byte_dec_bl in E; subst b.
  intros H; apply IH in H; now subst.
Qed.

Lemma match_unit_sound (u : list atom) (bs g r : bytes) :
  match_unit u bs = Some (g, r) ->
  bs = g ++ r /\ List.length g = List.length u.
Proof.
  revert bs g r; induction u as [|a u IH]; intros [|b bs] g r; simpl;
    try congruence.
  - intros [= <- <-]; auto.
  - intros [= <- <-]; auto.
  - destruct (match_atom a b); [|discriminate].
    destruct (match_unit u bs) as [[g' r']|] eqn:E; [|discriminate].
    intros [= <- <-]. destruct (IH _ _ _ E) as [-> Hl]; simpl; auto.
Qed.

(** The iteration count given by [re_match] is never the reason for a
    failure: any larger count gives the same answer. *)
Lemma lazy_star_fuel (u : list atom) (l2 : bytes) :
  u <> [] ->
  forall n m bs acc,
    (List.length bs <= n)%nat -> (List.length bs <= m)%nat ->
    lazy_star n u l2 bs acc = lazy_star m u l2 bs acc.
Proof.
  intros Hu; induction n as [|n IH]; intros m bs acc Hn Hm.
  - destruct bs; [|simpl in Hn; lia].
    destruct m; simpl; [reflexivity|].
    destruct (match_lit l2 []); [reflexivity|].
    destruct u; [congruence|reflexivity].
  - destruct m as [|m].
    + destruct bs; [|simpl in Hm; lia].
      simpl. destruct (match_lit l2 []); [reflexivity|].
      destruct u; [congruence|reflexivity].
    + simpl. destruct (match_lit l2 bs); [reflexivity|].
      destruct (match_unit u bs) as [[g r]|] eqn:E; [|reflexivity].
      destruct (match_unit_sound _ _ _ _ E) as [-> Hg].
      rewrite length_app in Hn, Hm.
      destruct u; [congruence|]. simpl in Hg.
      apply IH; lia.
Qed.

Lemma lazy_star_sound (u : list atom) (l2 : bytes) :
  forall fuel bs acc g,
    lazy_star fuel u l2 bs acc = Some g ->
    exists g' rest, g = acc ++ g' /\ bs = g' ++ l2 ++ rest.
Proof.
  induction fuel as [|fuel IH]; intros bs acc g; simpl.
  - destruct (match_lit l2 bs) as [r|] eqn:E; [|discriminate].
    intros [= <-]. exists [], r. rewrite app_nil_r. split; [reflexivity|].
    simpl. now apply match_lit_sound.
  - destruct (match_lit l2 bs) as [r|] eqn:E.
    + intros [= <-]. exists [], r. rewrite app_nil_r. split; [reflexivity|].
      simpl. now apply match_lit_sound.
    + destruct (match_unit u bs) as [[g1 r1]|] eqn:E1; [|discriminate].
      intros H. apply IH in H. destruct H as (g' & rest & -> & ->).
      destruct (match_unit_sound _ _ _ _ E1) as [-> _].
      exists (g1 ++ g'), rest. now rewrite <- !app_assoc.
Qed.

Lemma re_match_group_sound (l1 : bytes) (u : list atom) (l2 bs : bytes) m :
  re_match (re_lit_group_lit l1 u l2) bs = Some m ->
  exists g rest, group1 m = Some g /\ bs = l1 ++ g ++ l2 ++ rest.
Proof.
  simpl. destruct (match_lit l1 bs) as [r1|] eqn:E1; [|discriminate].
  destruct (lazy_star _ u l2 r1 []) as [g|] eqn:E2; [|discriminate].
  intros [= <-]. apply match_lit_sound in E1. apply lazy_star_sound in E2.
  destruct E2 as (g' & rest & -> & ->). exists g', rest. simpl. now subst.
Qed.

(** Every literal of the table is well-formed hexadecimal: [hex2re] never
    takes its default. *)
Lemma table_literals_wf :
  forallb (fun e => match pattern_of e with
                    | re_lit l => negb (Nat.eqb (List.length l) 0)
                    | re_lit_group_lit l1 u l2 =>
                        negb (Nat.eqb (List.length l1) 0)
                        && negb (Nat.eqb (List.length u) 0)
                        && negb (Nat.eqb (List.length l2) 0)
                    end) ENCODING_MAGIC_NUMBERS = true.
Proof. vm_compute. reflexivity. Qed.

(** ** [try_encoding] *)

Section Resolver.

Variable decode_bytes : codec.

Lemma try_encoding_decoded css_bytes encoding fallback t :
  decode_bytes encoding css_bytes = Ok t -> t <> [] ->
  try_encoding decode_bytes css_bytes encoding fallback
  = Ok (Some (strip_bom t)).
Proof.
  intros H Ht. unfold try_encoding. rewrite H.
  destruct t as [|c t]; [congruence|]. simpl.
  now destruct (c =? BOM).
Qed.

Lemma try_encoding_empty css_bytes encoding fallback :
  decode_bytes encoding css_bytes = Ok [] ->
  try_encoding decode_bytes css_bytes encoding fallback = Raise IndexError.
Proof. intros H. unfold try_encoding. now rewrite H. Qed.

Lemma try_encoding_skipped css_bytes encoding :
  decode_bytes encoding css_bytes = Raise LookupError \/
  decode_bytes encoding css_bytes = Raise UnicodeDecodeError ->
  try_encoding decode_bytes css_bytes encoding true = Ok None.
Proof. intros [H|H]; unfold try_encoding; now rewrite H. Qed.

Lemma try_encoding_inv css_bytes encoding fallback r :
  try_encoding decode_bytes css_bytes encoding fallback = Ok (Some r) ->
  exists t, decode_bytes encoding css_bytes = Ok t /\ t <> []
            /\ r = strip_bom t.
Proof.
  unfold try_encoding.
  destruct (decode_bytes encoding css_bytes) as [t|e].
  - destruct t as [|c t]; simpl; [discriminate|].
    intros H. exists (c :: t). repeat split; [discriminate|].
    simpl. destruct (c =? BOM); congruence.
  - destruct e, fallback; discriminate.
Qed.

Lemma try_encoding_raises css_bytes encoding e :
  try_encoding decode_bytes css_bytes encoding true = Raise e ->
  e <> UnicodeDecodeError /\ e <> LookupError.
Proof.
  unfold try_encoding.
  destruct (decode_bytes encoding css_bytes) as [t|e'].
  - destruct t as [|c t]; simpl.
    + intros [= <-]. split; discriminate.
    + destruct (c =? BOM); discriminate.
  - destruct e'; simpl; try discriminate;
      intros [= <-]; split; discriminate.
Qed.

Lemma try_encoding_strict css_bytes encoding :
  try_encoding decode_bytes css_bytes encoding false <> Ok None.
Proof.
  unfold try_encoding.
  destruct (decode_bytes encoding css_bytes) as [t|e].
  - destruct t as [|c t]; simpl; [discriminate|].
    destruct (c =? BOM); discriminate.
  - destruct e; discriminate.
Qed.

Lemma try_metadata_falsy css_bytes encoding :
  truthy encoding = false ->
  try_metadata decode_bytes css_bytes encoding = Ok None.
Proof. destruct encoding as [[|c s]|]; simpl; congruence. Qed.

Lemma try_metadata_truthy css_bytes encoding :
  encoding <> [] ->
  try_metadata decode_bytes css_bytes (Some encoding)
  = try_encoding decode_bytes css_bytes encoding true.
Proof. destruct encoding; simpl; congruence. Qed.

Lemma try_metadata_unusable css_bytes encoding :
  unusable decode_bytes css_bytes encoding ->
  try_metadata decode_bytes css_bytes encoding = Ok None.
Proof.
  intros [H|(name & -> & H)]; [now apply try_metadata_falsy|].
  destruct name as [|c s]; [reflexivity|].
  simpl. now apply try_encoding_skipped.
Qed.

(** ** Sequencing of the tiers *)

Lemma or_else_returns c k r :
  or_else c k = Ok (Some r) ->
  c = Ok (Some r) \/ (c = Ok None /\ k = Ok (Some r)).
Proof. destruct c as [[t|]|e]; simpl; intros H; auto; discriminate. Qed.

Lemma or_else_raises c k e :
  or_else c k = Raise e -> c = Raise e \/ (c = Ok None /\ k = Raise e).
Proof. destruct c as [[t|]|e']; simpl; intros H; auto; discriminate. Qed.

Lemma or_else_none c k :
  or_else c k = Ok None -> c = Ok None /\ k = Ok None.
Proof. destruct c as [[t|]|e']; simpl; intros H; auto; discriminate. Qed.

Lemma or_else_skip k : or_else (Ok None) k = k.
Proof. reflexivity. Qed.

Lemma or_else_return t k : or_else (Ok (Some t)) k = Ok (Some t).
Proof. reflexivity. Qed.

(** ** The sniffing loop *)

Lemma sniff_first_match table css_bytes :
  sniff decode_bytes table css_bytes
  = match first_match table css_bytes with
    | Some (e, m) => sniff_entry decode_bytes css_bytes (encoding_of e) m
    | None => Ok None
    end.
Proof.
  induction table as [|[[bom_size encoding] pattern] table IH]; simpl;
    [reflexivity|].
  unfold pattern_of; simpl.
  destruct (re_match pattern css_bytes); [reflexivity|exact IH].
Qed.

Lemma first_match_skip pre table css_bytes :
  no_signature pre css_bytes ->
  first_match (pre ++ table) css_bytes = first_match table css_bytes.
Proof.
  induction 1 as [|e pre He _ IH]; simpl; [reflexivity|].
  now rewrite He.
Qed.

Lemma first_match_none table css_bytes :
  no_signature table css_bytes -> first_match table css_bytes = None.
Proof.
  intros H. rewrite <- (app_nil_r table). now rewrite first_match_skip.
Qed.

Lemma sniff_entry_inv css_bytes encoding m r :
  sniff_entry decode_bytes css_bytes encoding m = Ok (Some r) ->
  exists encoding',
    candidate encoding m = Ok encoding' /\
    try_encoding decode_bytes css_bytes encoding' true = Ok (Some r) /\
    r <> [] /\
    (has_at_charset encoding = true -> startswith r at_charset_prefix = true).
Proof.
  unfold sniff_entry.
  destruct (candidate encoding m) as [encoding'|e]; cbn [bind];
    [|discriminate].
  destruct (try_encoding decode_bytes css_bytes encoding' true)
    as [[t|]|e] eqn:Et; cbn [bind nonempty andb]; try discriminate.
  destruct t as [|c t]; [discriminate|].
  cbn [nonempty starts_with_at_charset andb].
  destruct (has_at_charset encoding); cbn [andb negb].
  - destruct (startswith (c :: t) at_charset_prefix) eqn:E; cbn [negb];
      [|discriminate].
    intros [= <-]. exists encoding'. repeat split; auto; easy.
  - intros [= <-]. exists encoding'. repeat split; auto; easy.
Qed.

Lemma sniff_entry_raises css_bytes encoding m e :
  sniff_entry decode_bytes css_bytes encoding m = Raise e ->
  e <> UnicodeDecodeError /\ e <> LookupError.
Proof.
  unfold sniff_entry.
  destruct (candidate encoding m) as [encoding'|e'] eqn:Ec; simpl.
  - destruct (try_encoding decode_bytes css_bytes encoding' true)
      as [t|e'] eqn:Et; simpl.
    + destruct (_ && _); discriminate.
    + intros [= <-]. now apply try_encoding_raises in Et.
  - intros [= <-]. destruct encoding as [name|extract endianness];
      simpl in Ec; [discriminate|].
    unfold group in Ec. destruct (group1 m); simpl in Ec.
    + destruct (is_bare_utf _); discriminate.
    + injection Ec as <-. split; discriminate.
Qed.

End Resolver.

(** ** Properties of [decode] for any decode primitive *)

Section Properties.

Variable decode_bytes : codec.

Lemma try_metadata_inv css_bytes encoding r :
  try_metadata decode_bytes css_bytes encoding = Ok (Some r) ->
  exists name, encoding = Some name /\ name <> [] /\
    try_encoding decode_bytes css_bytes name true = Ok (Some r).
Proof.
  destruct encoding as [[|c s]|]; simpl; try discriminate.
  intros H. exists (c :: s). repeat split; auto; discriminate.
Qed.

Lemma try_metadata_raises css_bytes encoding e :
  try_metadata decode_bytes css_bytes encoding = Raise e ->
  e <> UnicodeDecodeError /\ e <> LookupError.
Proof.
  destruct encoding as [[|c s]|]; simpl; try discriminate.
  apply try_encoding_raises.
Qed.

Lemma try_each_raises css_bytes encodings e :
  try_each decode_bytes css_bytes encodings = Raise e ->
  e <> UnicodeDecodeError /\ e <> LookupError.
Proof.
  induction encodings as [|encoding rest IH]; simpl; [discriminate|].
  intros H. apply or_else_raises in H. destruct H as [H|[_ H]]; auto.
  now apply try_metadata_raises in H.
Qed.

Lemma sniff_raises table css_bytes e :
  sniff decode_bytes table css_bytes = Raise e ->
  e <> UnicodeDecodeError /\ e <> LookupError.
Proof.
  rewrite sniff_first_match.
  destruct (first_match table css_bytes) as [[entry m]|]; [|discriminate].
  apply sniff_entry_raises.
Qed.

(** Whatever [decode] returns is what some trial decode of the whole
    input gave, with one leading byte-order mark removed. *)
Lemma decode_provenance table css_bytes p l d r :
  decode_with decode_bytes table css_bytes p l d = Ok (Some r) ->
  exists encoding t,
    decode_bytes encoding css_bytes = Ok t /\ t <> [] /\ r = strip_bom t.
Proof.
  unfold decode_with. intros H.
  apply or_else_returns in H. destruct H as [H|[_ H]].
  { apply try_metadata_inv in H. destruct H as (name & _ & _ & H).
    apply try_encoding_inv in H. destruct H as (t & H). eauto. }
  apply or_else_returns in H. destruct H as [H|[_ H]].
  { rewrite sniff_first_match in H.
    destruct (first_match table css_bytes) as [[e m]|]; [|discriminate].
    apply sniff_entry_inv in H. destruct H as (enc & _ & H & _).
    apply try_encoding_inv in H. destruct H as (t & H). eauto. }
  apply or_else_returns in H. destruct H as [H|[_ H]].
  { simpl in H.
    apply or_else_returns in H. destruct H as [H|[_ H]].
    - apply try_metadata_inv in H. destruct H as (name & _ & _ & H).
      apply try_encoding_inv in H. destruct H as (t & H). eauto.
    - apply or_else_returns in H. destruct H as [H|[_ H]]; [|discriminate].
      apply try_metadata_inv in H. destruct H as (name & _ & _ & H).
      apply try_encoding_inv in H. destruct H as (t & H). eauto. }
  apply try_encoding_inv in H. destruct H as (t & H). eauto.
Qed.

(** X1: [decode] never returns [None]: it returns a string or raises. *)
Lemma decode_returns_text table css_bytes p l d :
  decode_with decode_bytes table css_bytes p l d <> Ok None.
Proof.
  unfold decode_with. intros H.
  apply or_else_none in H. destruct H as [_ H].
  apply or_else_none in H. destruct H as [_ H].
  apply or_else_none in H. destruct H as [_ H].
  now apply try_encoding_strict in H.
Qed.

(** *** The protocol tier *)

(** X17: when the protocol encoding decodes the input to a non-empty
    text, that text, less one leading byte-order mark, is returned,
    whatever the table, the content and the other encodings are. *)
Lemma protocol_tier_wins table css_bytes protocol_encoding l d t :
  protocol_encoding <> [] ->
  decode_bytes protocol_encoding css_bytes = Ok t -> t <> [] ->
  decode_with decode_bytes table css_bytes (Some protocol_encoding) l d
  = Ok (Some (strip_bom t)).
Proof.
  intros Hp Hd Ht. unfold decode_with.
  rewrite try_metadata_truthy by assumption.
  now rewrite (try_encoding_decoded _ _ _ _ _ Hd Ht).
Qed.

(** When it decodes the input to the empty text, the call is lost. *)
Lemma protocol_tier_empty_text table css_bytes protocol_encoding l d :
  protocol_encoding <> [] ->
  decode_bytes protocol_encoding css_bytes = Ok [] ->
  decode_with decode_bytes table css_bytes (Some protocol_encoding) l d
  = Raise IndexError.
Proof.
  intros Hp Hd. unfold decode_with.
  rewrite try_metadata_truthy by assumption.
  now rewrite (try_encoding_empty _ _ _ _ Hd).
Qed.

(** *** The acceptance rule of the sniffing tier *)

Lemma sniff_entry_declared css_bytes extract endianness m r :
  sniff_entry decode_bytes css_bytes (AsSpecified extract endianness) m
  = Ok (Some r) ->
  startswith r at_charset_prefix = true.
Proof.
  intros H. apply sniff_entry_inv in H.
  destruct H as (enc & _ & _ & _ & H). now apply H.
Qed.

Lemma sniff_entry_declared_rejected css_bytes extract endianness m name t :
  candidate (AsSpecified extract endianness) m = Ok name ->
  try_encoding decode_bytes css_bytes name true = Ok (Some t) ->
  startswith t at_charset_prefix = false ->
  sniff_entry decode_bytes css_bytes (AsSpecified extract endianness) m
  = Ok None.
Proof.
  intros Hc Ht Hs. unfold sniff_entry. rewrite Hc. simpl. rewrite Ht.
  cbn [bind starts_with_at_charset has_at_charset]. rewrite Hs.
  now rewrite andb_false_r.
Qed.

Lemma sniff_entry_fixed css_bytes name m t :
  try_encoding decode_bytes css_bytes name true = Ok (Some t) ->
  sniff_entry decode_bytes css_bytes (Name name) m
  = Ok (if nonempty (Some t) then Some t else None).
Proof.
  intros Ht. unfold sniff_entry. simpl. rewrite Ht. simpl.
  destruct t; reflexivity.
Qed.

(** The loop tries the first entry that matches and no other. *)
Lemma sniff_first_match_only_with
        (pre post : list entry) (e : entry) (m : Match)
        (css_bytes : bytes) :
  no_signature pre css_bytes ->
  re_match (pattern_of e) css_bytes = Some m ->
  (forall post',
      sniff decode_bytes (pre ++ e :: post') css_bytes
      = sniff_entry decode_bytes css_bytes (encoding_of e) m) /\
  (forall p l d,
      try_metadata decode_bytes css_bytes p = Ok None ->
      sniff_entry decode_bytes css_bytes (encoding_of e) m = Ok None ->
      decode_with decode_bytes (pre ++ e :: post) css_bytes p l d
      = or_else (try_each decode_bytes css_bytes [l; d])
                (try_encoding decode_bytes css_bytes (str "utf8") false)).
Proof.
  intros Hpre Hm.
  assert (Hs : forall post',
             sniff decode_bytes (pre ++ e :: post') css_bytes
             = sniff_entry decode_bytes css_bytes (encoding_of e) m).
  { intros post'. rewrite sniff_first_match, first_match_skip by assumption.
    simpl. now rewrite Hm. }
  split; [exact Hs|].
  intros p l d Hp He. unfold decode_with.
  now rewrite Hp, Hs, He.
Qed.

(** C4, as amended: the text returned by [decode] is a trial decode of
    the input with exactly one leading U+FEFF removed; it begins with
    U+FEFF only when that decoded text began with two of them. *)
Theorem decode_strips_one_bom table css_bytes p l d r :
  decode_with decode_bytes table css_bytes p l d = Ok (Some r) ->
  exists encoding t,
    decode_bytes encoding css_bytes = Ok t /\ r = strip_bom t /\
    (startswith r [BOM] = true -> startswith t [BOM; BOM] = true).
Proof.
  intros H. apply decode_provenance in H.
  destruct H as (encoding & t & Hd & Ht & ->).
  exists encoding, t. repeat split; auto.
  destruct t as [|c t]; [congruence|]. simpl.
  destruct (c =? BOM) eqn:E; simpl.
  - destruct t as [|c' t]; simpl; auto.
  - rewrite E. simpl. discriminate.
Qed.

(** *** Errors *)

(** The error of the fallback tier is the error of [decode]. *)
Lemma fallback_error_with table css_bytes p l d :
  decode_bytes (str "utf8") css_bytes = Codecs.utf_8 css_bytes ->
  Codecs.utf_8 css_bytes = Raise UnicodeDecodeError ->
  no_signature table css_bytes ->
  unusable decode_bytes css_bytes p ->
  unusable decode_bytes css_bytes l ->
  unusable decode_bytes css_bytes d ->
  decode_with decode_bytes table css_bytes p l d = Raise UnicodeDecodeError.
Proof.
  intros Hu Hinv Hsig Hp Hl Hd. unfold decode_with.
  rewrite (try_metadata_unusable _ _ _ Hp). simpl.
  rewrite sniff_first_match, (first_match_none _ _ Hsig). simpl.
  rewrite (try_metadata_unusable _ _ _ Hl). simpl.
  rewrite (try_metadata_unusable _ _ _ Hd). simpl.
  unfold try_encoding. rewrite Hu, Hinv. reflexivity.
Qed.

(** C8: an encoding name unknown to the primitive only makes its
    candidate be skipped, wherever the name comes from, and [decode]
    never raises the unknown-encoding error, the name [utf8] of the
    fallback tier being known. *)
Theorem unknown_encoding_is_skipped :
  (forall css_bytes, decode_bytes (str "utf8") css_bytes <> Raise LookupError) ->
  (forall css_bytes encoding,
      decode_bytes encoding css_bytes = Raise LookupError ->
      try_encoding decode_bytes css_bytes encoding true = Ok None) /\
  (forall table css_bytes name l d,
      decode_bytes name css_bytes = Raise LookupError ->
      decode_with decode_bytes table css_bytes (Some name) l d
      = decode_with decode_bytes table css_bytes None l d) /\
  (forall table css_bytes p name d,
      decode_bytes name css_bytes = Raise LookupError ->
      decode_with decode_bytes table css_bytes p (Some name) d
      = decode_with decode_bytes table css_bytes p None d) /\
  (forall table css_bytes p l name,
      decode_bytes name css_bytes = Raise LookupError ->
      decode_with decode_bytes table css_bytes p l (Some name)
      = decode_with decode_bytes table css_bytes p l None) /\
  (forall css_bytes encoding m name,
      candidate encoding m = Ok name ->
      decode_bytes name css_bytes = Raise LookupError ->
      sniff_entry decode_bytes css_bytes encoding m = Ok None) /\
  (forall table css_bytes p l d,
      decode_with decode_bytes table css_bytes p l d <> Raise LookupError).
Proof.
  intros Hutf8.
  assert (Hskip : forall css_bytes name,
             decode_bytes name css_bytes = Raise LookupError ->
             try_metadata decode_bytes css_bytes (Some name) = Ok None).
  { intros css_bytes name H. apply try_metadata_unusable.
    right. exists name. auto. }
  repeat split.
  - intros css_bytes encoding H. apply try_encoding_skipped. auto.
  - intros table css_bytes name l d H. unfold decode_with.
    now rewrite (Hskip _ _ H).
  - intros table css_bytes p name d H. unfold decode_with.
    cbn [try_each]. now rewrite (Hskip _ _ H).
  - intros table css_bytes p l name H. unfold decode_with.
    cbn [try_each]. now rewrite (Hskip _ _ H).
  - intros css_bytes encoding m name Hc H. unfold sniff_entry.
    rewrite Hc. simpl. rewrite try_encoding_skipped by auto. reflexivity.
  - intros table css_bytes p l d H. unfold decode_with in H.
    apply or_else_raises in H. destruct H as [H|[_ H]].
    { apply try_metadata_raises in H. destruct H; congruence. }
    apply or_else_raises in H. destruct H as [H|[_ H]].
    { apply sniff_raises in H. destruct H; congruence. }
    apply or_else_raises in H. destruct H as [H|[_ H]].
    { apply try_each_raises in H. destruct H; congruence. }
    unfold try_encoding in H.
    destruct (decode_bytes (str "utf8") css_bytes) as [t|e] eqn:E.
    + destruct t as [|c t]; simpl in H; [discriminate|].
      destruct (c =? BOM); discriminate.
    + destruct e; simpl in H; try discriminate.
      now apply Hutf8 in E.
Qed.

(** On the empty input every trial decode that succeeds gives the empty
    text, whose first character [try_encoding] reads; a trial decode
    that fails is skipped or, when the error is not one that
    [try_encoding] catches, ends the call with that error. *)
Lemma empty_input_with table p l d :
  (forall encoding t, decode_bytes encoding [] = Ok t -> t = []) ->
  decode_bytes (str "utf8") [] = Ok [] ->
  no_signature table [] ->
  (exists e, decode_with decode_bytes table [] p l d = Raise e) /\
  (fails_softly decode_bytes [] p ->
   fails_softly decode_bytes [] l ->
   fails_softly decode_bytes [] d ->
   decode_with decode_bytes table [] p l d = Raise IndexError).
Proof.
  intros Hempty Hutf8 Hsig.
  assert (Hm : forall encoding,
             try_metadata decode_bytes [] encoding = Ok None \/
             exists e, try_metadata decode_bytes [] encoding = Raise e).
  { intros [[|c s]|]; simpl; auto. unfold try_encoding.
    destruct (decode_bytes (c :: s) []) as [t|e] eqn:E.
    - apply Hempty in E. subst t. right. now exists IndexError.
    - destruct e; simpl; eauto. }
  assert (Hs : forall encoding,
             fails_softly decode_bytes [] encoding ->
             try_metadata decode_bytes [] encoding = Ok None \/
             try_metadata decode_bytes [] encoding = Raise IndexError).
  { intros [[|c s]|] Hsoft; simpl; auto. unfold try_encoding.
    destruct (decode_bytes (c :: s) []) as [t|e] eqn:E.
    - apply Hempty in E. subst t. now right.
    - destruct (Hsoft _ _ eq_refl E) as [-> | ->]; simpl; auto. }
  assert (Hlast : try_encoding decode_bytes [] (str "utf8") false
                  = Raise IndexError) by now apply try_encoding_empty.
  unfold decode_with.
  rewrite sniff_first_match, (first_match_none _ _ Hsig).
  cbn [try_each]. split.
  - destruct (Hm p) as [-> | [e ->]]; [|now exists e].
    destruct (Hm l) as [-> | [e ->]]; [|now exists e].
    destruct (Hm d) as [-> | [e ->]]; [|now exists e].
    exists IndexError. exact Hlast.
  - intros Hp Hl Hd.
    destruct (Hs p Hp) as [-> | ->]; [|reflexivity].
    destruct (Hs l Hl) as [-> | ->]; [|reflexivity].
    destruct (Hs d Hd) as [-> | ->]; [|reflexivity].
    exact Hlast.
Qed.

End Properties.

(** ** Style sheets that start with an [@charset] rule *)

Lemma match_lit_clash (l l' tail : bytes) :
  clash l l' = true -> match_lit l (l' ++ tail) = None.
Proof.
  revert l'; induction l as [|x l IH]; intros [|y l']; simpl; try discriminate.
  destruct (Byte.eqb x y); simpl; auto.
Qed.

Lemma re_match_clash (r : regex) (l' tail : bytes) :
  clash (lit_of r) l' = true -> re_match r (l' ++ tail) = None.
Proof.
  intros H. destruct r as [l|l1 u l2]; simpl in *;
    now rewrite (match_lit_clash _ _ _ H).
Qed.

Lemma first_match_nth (table : list entry) (css_bytes : bytes) :
  forall k e m,
    nth_error table k = Some e ->
    matches_none (firstn k table) css_bytes = true ->
    re_match (pattern_of e) css_bytes = Some m ->
    first_match table css_bytes = Some (e, m).
Proof.
  induction table as [|e0 table IH]; intros [|k] e m; simpl; try discriminate.
  - intros [= ->] _ ->. reflexivity.
  - intros Hn Hf Hm.
    destruct (re_match (pattern_of e0) css_bytes); [discriminate|].
    simpl in Hf. eauto.
Qed.

Lemma quote_eqb_false (b : byte) : b <> x22 -> Byte.eqb x22 b = false.
Proof.
  intros H. destruct (Byte.eqb x22 b) eqn:E; [|reflexivity].
  apply byte_dec_bl in E. congruence.
Qed.

Lemma form_suffix_fails (f : form) (b : byte) (tail : bytes) :
  b <> x22 -> match_lit (form_suffix f) (widen f b ++ tail) = None.
Proof.
  intros H. apply quote_eqb_false in H.
  destruct f as [bom|[] bom|[] bom];
    repeat (cbn -[Byte.eqb];
            first [rewrite (byte_dec_lb (eq_refl x00)) | rewrite H]);
    reflexivity.
Qed.

Lemma form_unit_matches (f : form) (b : byte) (tail : bytes) :
  b <> x22 ->
  match_unit (form_unit f) (widen f b ++ tail) = Some (widen f b, tail).
Proof.
  intros H. apply quote_eqb_false in H.
  destruct f as [bom|[] bom|[] bom];
    repeat (cbn -[Byte.eqb];
            first [rewrite (byte_dec_lb (eq_refl x00)) | rewrite H]);
    reflexivity.
Qed.

Lemma lazy_star_name (f : form) (rest : bytes) :
  forall E fuel acc,
    Forall (fun b => b <> x22) E ->
    (List.length E <= fuel)%nat ->
    lazy_star fuel (form_unit f) (form_suffix f)
              (flat_map (widen f) E ++ form_suffix f ++ rest) acc
    = Some (acc ++ flat_map (widen f) E).
Proof.
  induction E as [|b E IH]; intros fuel acc HE Hfuel.
  - simpl flat_map. rewrite app_nil_r. simpl app.
    destruct fuel; simpl; now rewrite match_lit_app.
  - inversion HE as [|? ? Hb HE']; subst.
    destruct fuel as [|fuel]; [simpl in Hfuel; lia|].
    simpl flat_map. rewrite <- app_assoc. simpl lazy_star.
    rewrite (form_suffix_fails f b _ Hb), (form_unit_matches f b _ Hb).
    rewrite IH by (auto; simpl in Hfuel; lia).
    now rewrite app_assoc.
Qed.

Lemma length_widen (f : form) (E : bytes) :
  (List.length E <= List.length (flat_map (widen f) E))%nat.
Proof.
  induction E as [|b E IH]; simpl; [lia|].
  rewrite length_app. destruct f as [bom|[] bom|[] bom]; simpl; lia.
Qed.

Lemma form_table (f : form) :
  nth_error ENCODING_MAGIC_NUMBERS (form_entry f)
  = Some (List.length (form_bom f),
          AsSpecified (Slice (fst (form_slice f)) (snd (form_slice f)))
                      (form_endianness f),
          re_lit_group_lit (form_prefix f) (form_unit f) (form_suffix f)).
Proof. destruct f as [[]|[] []|[] []]; vm_compute; reflexivity. Qed.

Lemma form_earlier_entries (f : form) :
  forallb (fun e => clash (lit_of (pattern_of e)) (form_prefix f))
          (firstn (form_entry f) ENCODING_MAGIC_NUMBERS) = true.
Proof. destruct f as [[]|[] []|[] []]; vm_compute; reflexivity. Qed.

Lemma encode_form_shape (f : form) (E rest : bytes) :
  encode_form f E rest
  = form_prefix f ++ flat_map (widen f) E ++ form_suffix f ++ rest.
Proof.
  unfold encode_form, at_charset_rule, form_prefix, form_suffix.
  rewrite (app_assoc (ascii_bytes "@charset ")), !flat_map_app.
  now rewrite <- !app_assoc.
Qed.

Lemma first_match_form (f : form) (E rest : bytes) :
  Forall (fun b => b <> x22) E ->
  first_match ENCODING_MAGIC_NUMBERS (encode_form f E rest)
  = Some ((List.length (form_bom f),
           AsSpecified (Slice (fst (form_slice f)) (snd (form_slice f)))
                       (form_endianness f),
           re_lit_group_lit (form_prefix f) (form_unit f) (form_suffix f)),
          {| group1 := Some (flat_map (widen f) E) |}).
Proof.
  intros HE. rewrite encode_form_shape.
  apply (first_match_nth _ _ (form_entry f)).
  - apply form_table.
  - unfold matches_none.
    pose proof (form_earlier_entries f) as H.
    rewrite forallb_forall in H |- *.
    intros e He. now rewrite (re_match_clash _ _ _ (H e He)).
  - unfold pattern_of. simpl. rewrite match_lit_app.
    rewrite lazy_star_name; [reflexivity|assumption|].
    rewrite length_app. pose proof (length_widen f E). lia.
Qed.

Lemma Slice_widen (f : form) (E : bytes) :
  Slice (fst (form_slice f)) (snd (form_slice f)) (flat_map (widen f) E) = E.
Proof.
  unfold Slice.
  destruct f as [bom|[] bom|[] bom]; simpl;
    induction E as [|b E IH]; simpl; congruence.
Qed.

Lemma ascii_replace_ascii (E : bytes) :
  Forall (fun b => Byte.to_N b < 128) E ->
  ascii_replace E = map Byte.to_N E.
Proof.
  induction 1 as [|b E Hb _ IH]; simpl; [reflexivity|].
  apply N.ltb_lt in Hb. rewrite Hb. now f_equal.
Qed.

(** The characters of a name read from an [@charset] rule are ASCII or
    U+FFFD; [lower] is Python's on them. *)
Lemma ascii_replace_range (b : bytes) :
  Forall (fun c => c < 128 \/ c = 0xFFFD) (ascii_replace b).
Proof.
  induction b as [|x b IH]; simpl; constructor; auto.
  destruct (Byte.to_N x <? 128) eqn:E; auto.
  left. now apply N.ltb_lt.
Qed.

Lemma startswith_app (p s : text) : startswith (p ++ s) p = true.
Proof.
  induction p as [|c p IH]; simpl; [reflexivity|].
  now rewrite N.eqb_refl.
Qed.

Lemma strip_bom_at_charset (f : form) (t : text) :
  strip_bom ((if has_bom f then [BOM] else []) ++ at_charset_prefix ++ t)
  = at_charset_prefix ++ t.
Proof. destruct (has_bom f); reflexivity. Qed.

Lemma candidate_form (f : form) (E : bytes) :
  Forall (fun b => Byte.to_N b < 128) E ->
  candidate (AsSpecified (Slice (fst (form_slice f)) (snd (form_slice f)))
                         (form_endianness f))
            {| group1 := Some (flat_map (widen f) E) |}
  = Ok (declared_encoding f (map Byte.to_N E)).
Proof.
  intros HE. unfold candidate, group. cbn [group1 bind].
  rewrite Slice_widen, (ascii_replace_ascii _ HE).
  unfold declared_encoding. now destruct (is_bare_utf _).
Qed.

(** ** Plain ASCII text *)

Lemma utf_8_ascii (bs : bytes) :
  Forall ascii_char bs -> Codecs.utf_8 bs = Ok (map Byte.to_N bs).
Proof.
  induction 1 as [|b bs [_ Hb] _ IH]; simpl; [reflexivity|].
  apply N.ltb_lt in Hb. rewrite Hb, IH. reflexivity.
Qed.

Lemma not_ascii_eqb (x b : byte) :
  not_ascii x = true -> ascii_char b -> Byte.eqb x b = false.
Proof.
  intros Hx [H0 H1]. destruct (Byte.eqb x b) eqn:E; [|reflexivity].
  apply byte_dec_bl in E. subst b. unfold not_ascii in Hx.
  apply orb_true_iff in Hx. destruct Hx as [Hx|Hx].
  - apply N.eqb_eq in Hx. lia.
  - apply N.leb_le in Hx. lia.
Qed.

Lemma match_lit_excludes (l bs : bytes) :
  excludes_ascii l = true -> Forall ascii_char bs -> match_lit l bs = None.
Proof.
  intros Hl Hbs.
  destruct l as [|x [|y l]]; simpl in Hl; [discriminate| |].
  - destruct bs as [|b bs]; [reflexivity|].
    inversion Hbs; subst. simpl. now rewrite (not_ascii_eqb x b).
  - destruct bs as [|b0 [|b1 bs]]; [reflexivity| |].
    + simpl. now destruct (Byte.eqb x b0).
    + inversion Hbs as [|? ? H0 Hbs']; subst.
      inversion Hbs' as [|? ? H1 _]; subst.
      cbn [match_lit]. destruct (Byte.eqb x b0) eqn:E0; [|reflexivity].
      destruct (Byte.eqb y b1) eqn:E1; [|reflexivity].
      apply orb_true_iff in Hl. destruct Hl as [Hl|Hl].
      * rewrite (not_ascii_eqb _ _ Hl H0) in E0. discriminate.
      * rewrite (not_ascii_eqb _ _ Hl H1) in E1. discriminate.
Qed.

Lemma re_match_excludes (r : regex) (bs : bytes) :
  excludes_ascii (lit_of r) = true -> Forall ascii_char bs ->
  re_match r bs = None.
Proof.
  intros Hl Hbs. destruct r as [l|l1 u l2]; simpl in *;
    now rewrite (match_lit_excludes _ _ Hl Hbs).
Qed.

Lemma re_match_at_charset_rule (bs : bytes) :
  ~ has_at_charset_rule bs ->
  re_match (re_lit_group_lit (hex2re "40 63 68 61 72 73 65 74 20 22")
                             [any_but_quote] (hex2re "22 3B")) bs = None.
Proof.
  intros Hno.
  destruct (re_match _ bs) as [m|] eqn:E; [|reflexivity].
  apply re_match_group_sound in E. destruct E as (g & rest & _ & ->).
  exfalso. apply Hno. exists g, rest.
  unfold at_charset_rule. rewrite <- !app_assoc. reflexivity.
Qed.

(** ASCII text that does not start with an [@charset] rule matches no
    entry of the table. *)
Lemma ascii_text_no_signature (css_bytes : bytes) :
  Forall ascii_char css_bytes ->
  ~ has_at_charset_rule css_bytes ->
  no_signature ENCODING_MAGIC_NUMBERS css_bytes.
Proof.
  intros Hascii Hno. unfold no_signature, ENCODING_MAGIC_NUMBERS.
  repeat (apply Forall_cons || apply Forall_nil);
    first [ apply re_match_excludes; [vm_compute; reflexivity | assumption]
          | now apply re_match_at_charset_rule ].
Qed.

Lemma matches_none_sound (table : list entry) (css_bytes : bytes) :
  matches_none table css_bytes = true -> no_signature table css_bytes.
Proof.
  unfold matches_none, no_signature. rewrite forallb_forall, Forall_forall.
  intros H e He. specialize (H e He).
  now destruct (re_match (pattern_of e) css_bytes).
Qed.

(** X18: non-empty ASCII text without an [@charset] rule, given with no
    metadata encoding, falls through to the last tier and is returned as
    its UTF-8 decode: the bytes, unchanged. *)
Lemma plain_ascii_decodes_as_utf8 (decode_bytes : codec) (css_bytes : bytes) :
  css_bytes <> [] ->
  Forall ascii_char css_bytes ->
  ~ has_at_charset_rule css_bytes ->
  decode_bytes (str "utf8") css_bytes = Codecs.utf_8 css_bytes ->
  sniff decode_bytes ENCODING_MAGIC_NUMBERS css_bytes = Ok None /\
  decode decode_bytes css_bytes None None None
  = Ok (Some (map Byte.to_N css_bytes)).
Proof.
  intros Hne Hascii Hno Hu.
  assert (Hs : sniff decode_bytes ENCODING_MAGIC_NUMBERS css_bytes = Ok None).
  { rewrite sniff_first_match, first_match_none; [reflexivity|].
    now apply ascii_text_no_signature. }
  split; [exact Hs|].
  unfold decode, decode_with. rewrite Hs. cbn [try_metadata try_each or_else bind].
  rewrite (try_encoding_decoded _ _ _ _ (map Byte.to_N css_bytes)).
  - destruct css_bytes as [|b bs]; [congruence|].
    inversion Hascii as [|? ? [_ Hb] _]; subst. simpl.
    destruct (Byte.to_N b =? BOM) eqn:E; [|reflexivity].
    apply N.eqb_eq in E. unfold BOM in E. lia.
  - rewrite Hu. now apply utf_8_ascii.
  - destruct css_bytes; [congruence|discriminate].
Qed.

(** ** The reference decode primitive *)

Lemma push_raises (c : result char) (rest : result text) (e : exn) :
  Codecs.push c rest = Raise e -> c = Raise e \/ rest = Raise e.
Proof.
  destruct c as [x|e1]; simpl; [|intros [= ->]; auto].
  destruct rest as [t|e2]; simpl; [discriminate|intros [= ->]; auto].
Qed.

Lemma scalar_raises (least c : N) (e : exn) :
  Codecs.scalar least c = Raise e -> e = UnicodeDecodeError.
Proof. unfold Codecs.scalar. destruct (_ && _); congruence. Qed.

Lemma utf_8_raises :
  forall n bs e,
    (List.length bs <= n)%nat ->
    Codecs.utf_8 bs = Raise e -> e = UnicodeDecodeError.
Proof.
  induction n as [|n IH]; intros bs e Hn.
  - destruct bs; [discriminate|simpl in Hn; lia].
  - destruct bs as [|b0 r0]; [discriminate|]. simpl in Hn.
    cbn [Codecs.utf_8].
    repeat match goal with
           | |- context [if ?c then _ else _] => destruct c
           | |- context [match ?r with [] => _ | _ :: _ => _ end] =>
               destruct r; simpl in Hn
           | |- context [match Codecs.cont ?b with _ => _ end] =>
               destruct (Codecs.cont b)
           end;
      try congruence;
      intros H; apply push_raises in H; destruct H as [H|H];
      try discriminate;
      try (now apply scalar_raises in H);
      apply IH in H; auto; lia.
Qed.

Lemma py_codec_utf8 (css_bytes : bytes) :
  py_codec (str "utf8") css_bytes = Codecs.utf_8 css_bytes.
Proof. reflexivity. Qed.

Lemma py_codec_utf8_known (css_bytes : bytes) :
  py_codec (str "utf8") css_bytes <> Raise LookupError.
Proof.
  rewrite py_codec_utf8. intros H.
  apply (utf_8_raises _ _ _ (le_n _)) in H. discriminate.
Qed.

Lemma py_codec_empty (encoding t : text) :
  py_codec encoding [] = Ok t -> t = [].
Proof.
  unfold py_codec, Codecs.registry. cbn [Codecs.lookup].
  repeat match goal with
         | |- context [if ?c then _ else _] => destruct c
         end;
    cbv [Codecs.utf_8 Codecs.utf_16 Codecs.utf_32 Codecs.us_ascii
         Codecs.latin_1 Codecs.utf_16_any Codecs.utf_32_any
         Codecs.units16 Codecs.pair_surrogates bind map];
    first [discriminate | now intros [= <-]].
Qed.

Lemma normalize_nul (name : text) :
  existsb (N.eqb 0) (Codecs.normalize name) = existsb (N.eqb 0) name.
Proof.
  induction name as [|c name IH]; [reflexivity|].
  cbn [Codecs.normalize map existsb].
  fold (Codecs.normalize name). rewrite IH. f_equal.
  unfold lower_char.
  destruct (c =? N_of_ascii "-") eqn:E1.
  - apply N.eqb_eq in E1. subst c. reflexivity.
  - destruct ((65 <=? c) && (c <=? 90)) eqn:E2; [|reflexivity].
    apply andb_true_iff in E2. destruct E2 as [E2 _].
    apply N.leb_le in E2.
    destruct (N.eqb_spec 0 (c + 32)), (N.eqb_spec 0 c); auto; lia.
Qed.

Lemma lookup_no_nul (n : text) (d : bytes -> result text) :
  Codecs.lookup n Codecs.registry = Some d -> existsb (N.eqb 0) n = false.
Proof.
  unfold Codecs.registry. cbn [Codecs.lookup].
  repeat match goal with
         | |- context [if existsb ?f ?l then _ else _] =>
             let E := fresh "E" in
             destruct (existsb f l) eqn:E;
             [ intros _; apply existsb_exists in E;
               destruct E as (x & Hin & Hx); unfold text_eqb in Hx;
               destruct (list_eq_dec N.eq_dec n x); [subst x|discriminate];
               cbn [In] in Hin;
               repeat (destruct Hin as [<-|Hin]; [reflexivity|]);
               contradiction
             | clear E ]
         end.
  discriminate.
Qed.

(** The reference primitive under a name that the registry has. *)
Lemma py_codec_known (encoding : text) (css_bytes : bytes)
      (d : bytes -> result text) :
  Codecs.lookup (Codecs.normalize encoding) Codecs.registry = Some d ->
  py_codec encoding css_bytes = d css_bytes.
Proof.
  intros H. unfold py_codec.
  rewrite <- normalize_nul, (lookup_no_nul _ _ H), H. reflexivity.
Qed.

(** ** The reference encoders and decoders *)

Ltac euclid := zify; Z.to_euclidean_division_equations; lia.

Lemma to_N_byte_of (n : N) : Byte.to_N (Codecs.byte_of n) = n mod 256.
Proof.
  unfold Codecs.byte_of.
  destruct (Byte.of_N (n mod 256)) as [b|] eqn:E.
  - now apply Byte.to_of_N.
  - apply Byte.of_N_None_iff in E. pose proof (N.mod_lt n 256). lia.
Qed.

Lemma byte_of_to_N (b : byte) : Codecs.byte_of (Byte.to_N b) = b.
Proof.
  unfold Codecs.byte_of. pose proof (Byte.to_N_bounded b).
  rewrite N.mod_small by lia. now rewrite Byte.of_to_N.
Qed.

Lemma byte_of_high (b : byte) (k : N) :
  256 <= k -> Codecs.byte_of (Byte.to_N b / k) = x00.
Proof.
  intros Hk. pose proof (Byte.to_N_bounded b).
  rewrite N.div_small by lia. reflexivity.
Qed.

Lemma units16_encode (big : bool) (us : list N) :
  Forall (fun u => u < 65536) us ->
  Codecs.units16 big (flat_map (Codecs.unit16 big) us) = Ok us.
Proof.
  induction 1 as [|u us Hu _ IH]; [reflexivity|].
  destruct big; cbn [flat_map Codecs.unit16 app Codecs.units16];
    rewrite IH; cbn [bind]; rewrite !to_N_byte_of;
    do 2 f_equal; euclid.
Qed.

Lemma units_of_range (t : text) :
  Forall Codecs.scalar_value t ->
  Forall (fun u => u < 65536) (flat_map Codecs.units_of t).
Proof.
  induction 1 as [|c t [Hc _] _ IH]; [constructor|].
  cbn [flat_map]. apply Forall_app. split; [|exact IH].
  unfold Codecs.units_of. destruct (c <? 65536) eqn:E.
  - apply N.ltb_lt in E. repeat constructor. exact E.
  - apply N.ltb_ge in E. repeat constructor; euclid.
Qed.

Lemma pair_surrogates_encode (t : text) :
  Forall Codecs.scalar_value t ->
  Codecs.pair_surrogates (flat_map Codecs.units_of t) = Ok t.
Proof.
  induction 1 as [|c t [Hc Hs] _ IH]; [reflexivity|].
  cbn [flat_map]. unfold Codecs.units_of at 1.
  destruct (c <? 65536) eqn:E.
  - apply N.ltb_lt in E. cbn [app Codecs.pair_surrogates].
    destruct ((55296 <=? c) && (c <=? 56319)) eqn:E1.
    { apply andb_true_iff in E1. destruct E1 as [E1 E2].
      apply N.leb_le in E1, E2. lia. }
    destruct ((56320 <=? c) && (c <=? 57343)) eqn:E2.
    { apply andb_true_iff in E2. destruct E2 as [E2 E3].
      apply N.leb_le in E2, E3. lia. }
    rewrite IH. reflexivity.
  - apply N.ltb_ge in E. cbn [app Codecs.pair_surrogates].
    set (u := 55296 + (c - 65536) / 1024).
    set (v := 56320 + (c - 65536) mod 1024).
    assert (Hu : 55296 <= u /\ u <= 56319) by (subst u; euclid).
    assert (Hv : 56320 <= v /\ v <= 57343) by (subst v; euclid).
    assert (Hc' : 65536 + (u - 55296) * 1024 + (v - 56320) = c)
      by (subst u v; euclid).
    destruct Hu as [Hu1 Hu2], Hv as [Hv1 Hv2].
    apply N.leb_le in Hu1, Hu2, Hv1, Hv2.
    rewrite Hu1, Hu2, Hv1, Hv2. cbn [andb].
    rewrite IH. cbn [Codecs.push bind]. now rewrite Hc'.
Qed.

Lemma utf_16_encode (big : bool) (t : text) :
  Forall Codecs.scalar_value t ->
  Codecs.utf_16 big (Codecs.encode_utf_16 big t) = Ok t.
Proof.
  intros Ht. unfold Codecs.utf_16, Codecs.encode_utf_16.
  rewrite units16_encode by now apply units_of_range.
  cbn [bind]. now apply pair_surrogates_encode.
Qed.

Lemma scalar_of_value (c : char) :
  Codecs.scalar_value c -> Codecs.scalar 0 c = Ok c.
Proof.
  intros [Hc Hs]. unfold Codecs.scalar, Codecs.surrogate.
  replace (c <=? 1114111) with true by (symmetry; apply N.leb_le; lia).
  replace (0 <=? c) with true by (symmetry; apply N.leb_le; lia).
  destruct ((55296 <=? c) && (c <=? 57343)) eqn:E; [|reflexivity].
  apply andb_true_iff in E. destruct E as [E1 E2].
  apply N.leb_le in E1, E2. lia.
Qed.

Lemma utf_32_encode (big : bool) (t : text) :
  Forall Codecs.scalar_value t ->
  Codecs.utf_32 big (Codecs.encode_utf_32 big t) = Ok t.
Proof.
  induction 1 as [|c t Hc _ IH]; [reflexivity|].
  unfold Codecs.encode_utf_32 in *.
  pose proof Hc as [Hlt _].
  destruct big; cbn [flat_map Codecs.unit32 app Codecs.utf_32];
    rewrite IH, !to_N_byte_of.
  - replace (((c / 16777216 mod 256 * 256 + c / 65536 mod 256) * 256
              + c / 256 mod 256) * 256 + c mod 256) with c by euclid.
    now rewrite scalar_of_value.
  - replace (((c / 16777216 mod 256 * 256 + c / 65536 mod 256) * 256
              + c / 256 mod 256) * 256 + c mod 256) with c by euclid.
    now rewrite scalar_of_value.
Qed.

Lemma utf_8_below_128 (bs : bytes) :
  Forall (fun b => Byte.to_N b < 128) bs ->
  Codecs.utf_8 bs = Ok (map Byte.to_N bs).
Proof.
  induction 1 as [|b bs Hb _ IH]; simpl; [reflexivity|].
  apply N.ltb_lt in Hb. rewrite Hb, IH. reflexivity.
Qed.

Lemma us_ascii_below_128 (bs : bytes) :
  Forall (fun b => Byte.to_N b < 128) bs ->
  Codecs.us_ascii bs = Ok (map Byte.to_N bs).
Proof.
  induction 1 as [|b bs Hb _ IH]; simpl; [reflexivity|].
  apply N.ltb_lt in Hb. rewrite Hb, IH. reflexivity.
Qed.

Lemma encode_ascii_decoded (t : text) :
  Forall (fun c => c < 128) t ->
  Forall (fun b => Byte.to_N b < 128) (Codecs.encode_ascii t) /\
  map Byte.to_N (Codecs.encode_ascii t) = t.
Proof.
  unfold Codecs.encode_ascii.
  induction 1 as [|c t Hc _ [IH1 IH2]]; simpl; [auto|].
  assert (Hb : Byte.to_N (Codecs.byte_of c) = c)
    by (rewrite to_N_byte_of; apply N.mod_small; lia).
  split; [constructor; [lia|exact IH1]|]. now rewrite Hb, IH2.
Qed.

(** ** Texts in the forms of the table *)

Lemma encode_body_app (f : form) (t1 t2 : text) :
  encode_body f (t1 ++ t2) = encode_body f t1 ++ encode_body f t2.
Proof.
  destruct f as [bom|big bom|big bom]; simpl.
  - apply map_app.
  - unfold Codecs.encode_utf_16. now rewrite !flat_map_app.
  - unfold Codecs.encode_utf_32. now rewrite !flat_map_app.
Qed.

Lemma encode_body_bytes (f : form) (bs : bytes) :
  encode_body f (map Byte.to_N bs) = flat_map (widen f) bs.
Proof.
  induction bs as [|b bs IH]; [now destruct f as [|[]|[]]|].
  change (map Byte.to_N (b :: bs)) with ([Byte.to_N b] ++ map Byte.to_N bs).
  rewrite encode_body_app, IH. cbn [flat_map]. f_equal.
  pose proof (Byte.to_N_bounded b).
  destruct f as [bom|[] bom|[] bom];
    cbn [encode_body Codecs.encode_ascii Codecs.encode_utf_16
         Codecs.encode_utf_32 flat_map map app widen Codecs.unit32];
    unfold Codecs.units_of;
    try replace (Byte.to_N b <? 65536) with true
      by (symmetry; apply N.ltb_lt; lia);
    cbn [flat_map app Codecs.unit16];
    rewrite ?byte_of_to_N, ?byte_of_high by lia; reflexivity.
Qed.

Lemma at_charset_text_bytes (E : bytes) :
  at_charset_text (map Byte.to_N E) = map Byte.to_N (at_charset_rule E).
Proof.
  unfold at_charset_text, at_charset_rule. now rewrite !map_app.
Qed.

Lemma encode_text_at_charset (f : form) (E : bytes) (rest_text : text) :
  encode_text f (at_charset_text (map Byte.to_N E) ++ rest_text)
  = encode_form f E (encode_body f rest_text).
Proof.
  unfold encode_text, encode_form.
  now rewrite encode_body_app, at_charset_text_bytes, encode_body_bytes.
Qed.

Lemma utf_8_bom (bs : bytes) :
  Codecs.utf_8 (xef :: xbb :: xbf :: bs)
  = Codecs.push (Ok BOM) (Codecs.utf_8 bs).
Proof. reflexivity. Qed.

Lemma encode_utf_16_bom (big : bool) (t : text) :
  form_bom (Utf16 big true) ++ Codecs.encode_utf_16 big t
  = Codecs.encode_utf_16 big (BOM :: t).
Proof. destruct big; reflexivity. Qed.

Lemma encode_utf_32_bom (big : bool) (t : text) :
  form_bom (Utf32 big true) ++ Codecs.encode_utf_32 big t
  = Codecs.encode_utf_32 big (BOM :: t).
Proof. destruct big; reflexivity. Qed.

Lemma scalar_value_bom : Codecs.scalar_value BOM.
Proof. unfold Codecs.scalar_value, BOM. lia. Qed.

(** Each reference decoder of a form reads the texts written in it. *)
Lemma form_decoders_read (f : form) (d : bytes -> result text) (t : text) :
  In d (form_decoders f) ->
  Forall (encodable f) t ->
  d (encode_text f t) = Ok ((if has_bom f then [BOM] else []) ++ t).
Proof.
  intros Hd Ht. unfold encode_text.
  destruct f as [bom|big bom|big bom]; cbn [encodable encode_body] in *.
  - destruct (encode_ascii_decoded t Ht) as [H1 H2].
    destruct bom; cbn [form_decoders In] in Hd.
    + destruct Hd as [<-|[]]. cbn [form_bom app has_bom].
      rewrite utf_8_bom, utf_8_below_128, H2 by assumption. reflexivity.
    + destruct Hd as [<-|[<-|[<-|[]]]]; cbn [form_bom app has_bom].
      * now rewrite utf_8_below_128, H2.
      * now rewrite us_ascii_below_128, H2.
      * unfold Codecs.latin_1. now rewrite H2.
  - cbn [form_decoders In] in Hd. destruct Hd as [<-|[]].
    destruct bom; cbn [has_bom].
    + rewrite encode_utf_16_bom. apply utf_16_encode.
      constructor; [apply scalar_value_bom|assumption].
    + destruct big; cbn [form_bom app]; now apply utf_16_encode.
  - cbn [form_decoders In] in Hd. destruct Hd as [<-|[]].
    destruct bom; cbn [has_bom].
    + rewrite encode_utf_32_bom. apply utf_32_encode.
      constructor; [apply scalar_value_bom|assumption].
    + destruct big; cbn [form_bom app]; now apply utf_32_encode.
Qed.

Lemma encodable_ascii (f : form) (c : char) : c < 128 -> encodable f c.
Proof.
  intros Hc. destruct f; simpl; auto; unfold Codecs.scalar_value; lia.
Qed.

Lemma at_charset_text_encodable (f : form) (E : bytes) :
  Forall (fun b => Byte.to_N b < 128) E ->
  Forall (encodable f) (at_charset_text (map Byte.to_N E)).
Proof.
  intros HE. rewrite at_charset_text_bytes. apply Forall_map.
  unfold at_charset_rule. repeat rewrite Forall_app. repeat split.
  - repeat constructor; apply encodable_ascii; vm_compute; reflexivity.
  - repeat constructor; apply encodable_ascii; vm_compute; reflexivity.
  - eapply Forall_impl; [|exact HE]. intros b. apply encodable_ascii.
  - repeat constructor; apply encodable_ascii; vm_compute; reflexivity.
Qed.

(** The sniffing tier on a style sheet that starts with an [@charset]
    rule in one of the forms, when the primitive reads it under the
    declared encoding. *)
Lemma sniff_at_charset_form
      (decode_bytes : codec) (f : form) (E rest : bytes) (t : text) :
  Forall (fun b => Byte.to_N b < 128 /\ b <> x22) E ->
  decode_bytes (declared_encoding f (map Byte.to_N E)) (encode_form f E rest)
  = Ok ((if has_bom f then [BOM] else []) ++ at_charset_prefix ++ t) ->
  sniff decode_bytes ENCODING_MAGIC_NUMBERS (encode_form f E rest)
  = Ok (Some (at_charset_prefix ++ t)).
Proof.
  intros HE Hd.
  assert (H1 : Forall (fun b => b <> x22) E)
    by (eapply Forall_impl; [|exact HE]; simpl; tauto).
  assert (H2 : Forall (fun b => Byte.to_N b < 128) E)
    by (eapply Forall_impl; [|exact HE]; simpl; tauto).
  rewrite sniff_first_match, (first_match_form f E rest H1).
  unfold encoding_of. cbn [fst snd].
  unfold sniff_entry. rewrite (candidate_form f E H2). cbn [bind].
  rewrite (try_encoding_decoded _ _ _ _ _ Hd).
  - rewrite strip_bom_at_charset.
    cbn [bind has_at_charset starts_with_at_charset].
    rewrite startswith_app. reflexivity.
  - destruct (has_bom f); discriminate.
Qed.

(** With the reference primitive: a text that starts with an [@charset]
    rule, written in one of the forms under a name that the registry has
    for a decoder of that form, is returned as it was. *)
Lemma reference_roundtrip
      (f : form) (E : bytes) (rest_text : text) (d : bytes -> result text) :
  Forall (fun b => Byte.to_N b < 128 /\ b <> x22) E ->
  Forall (encodable f) rest_text ->
  Codecs.lookup (Codecs.normalize (declared_encoding f (map Byte.to_N E)))
                Codecs.registry = Some d ->
  In d (form_decoders f) ->
  decode py_codec
    (encode_text f (at_charset_text (map Byte.to_N E) ++ rest_text))
    None None None
  = Ok (Some (at_charset_text (map Byte.to_N E) ++ rest_text)).
Proof.
  intros HE Ht Hl Hd.
  assert (H2 : Forall (fun b => Byte.to_N b < 128) E)
    by (eapply Forall_impl; [|exact HE]; simpl; tauto).
  assert (Hdec : py_codec (declared_encoding f (map Byte.to_N E))
                   (encode_form f E (encode_body f rest_text))
                 = Ok ((if has_bom f then [BOM] else [])
                       ++ at_charset_text (map Byte.to_N E) ++ rest_text)).
  { rewrite (py_codec_known _ _ _ Hl), <- encode_text_at_charset.
    apply form_decoders_read; [assumption|].
    apply Forall_app. split; [now apply at_charset_text_encodable|assumption]. }
  rewrite encode_text_at_charset. unfold decode, decode_with.
  cbn [try_metadata]. rewrite or_else_skip.
  unfold at_charset_text in *. rewrite <- !app_assoc in *.
  now rewrite (sniff_at_charset_form _ _ _ _ _ HE Hdec).
Qed.

Lemma name_check (E : bytes) :
  forallb (fun b => (Byte.to_N b <? 128) && negb (Byte.eqb b x22)) E = true ->
  Forall (fun b => Byte.to_N b < 128 /\ b <> x22) E.
Proof.
  rewrite forallb_forall, Forall_forall. intros H b Hb.
  specialize (H b Hb). apply andb_true_iff in H. destruct H as [H1 H2].
  split; [now apply N.ltb_lt|].
  intros ->. now rewrite (byte_dec_lb (eq_refl x22)) in H2.
Qed.

(** X19: with the reference primitive, a text that starts with the rule
    [@charset] naming the usual encoding of a form, written in that form
    by the reference encoders (with the byte-order mark when the form has
    one), is returned by [decode] as it was, in each of the ten forms. *)
Lemma roundtrip_all_forms (f : form) (rest_text : text) :
  Forall (encodable f) rest_text ->
  decode py_codec
    (encode_text f (at_charset_text (map Byte.to_N (form_name f)) ++ rest_text))
    None None None
  = Ok (Some (at_charset_text (map Byte.to_N (form_name f)) ++ rest_text)).
Proof.
  intros Ht.
  destruct f as [[]|big bom|big bom].
  - apply (reference_roundtrip _ (form_name _) _ Codecs.utf_8);
      [apply name_check; vm_compute; reflexivity | exact Ht
      | reflexivity | cbn [form_decoders In]; auto].
  - apply (reference_roundtrip _ (form_name _) _ Codecs.latin_1);
      [apply name_check; vm_compute; reflexivity | exact Ht
      | reflexivity | cbn [form_decoders In]; auto].
  - apply (reference_roundtrip _ (form_name _) _ (Codecs.utf_16 big));
      [apply name_check; vm_compute; reflexivity | exact Ht
      | destruct big; reflexivity | cbn [form_decoders In]; auto].
  - apply (reference_roundtrip _ (form_name _) _ (Codecs.utf_32 big));
      [apply name_check; vm_compute; reflexivity | exact Ht
      | destruct big; reflexivity | cbn [form_decoders In]; auto].
Qed.

(** X20: with the reference primitive, a text that starts with the rule
    [@charset] naming the encoding of a form with its byte order
    ([UTF-16BE], [utf-16le], [UTF-32BE], [utf_32_le]; [UTF-8] and
    [us-ascii] in the ASCII-compatible forms), written in that form by
    the reference encoders, is returned by [decode] as it was: such a
    name is used as it is found, with nothing added to it. *)
Lemma roundtrip_explicit_names (f : form) (rest_text : text) :
  Forall (encodable f) rest_text ->
  decode py_codec
    (encode_text f (at_charset_text (map Byte.to_N (form_explicit_name f))
                    ++ rest_text))
    None None None
  = Ok (Some (at_charset_text (map Byte.to_N (form_explicit_name f))
              ++ rest_text)).
Proof.
  intros Ht.
  destruct f as [[]|big bom|big bom].
  - apply (reference_roundtrip _ (form_explicit_name _) _ Codecs.utf_8);
      [apply name_check; vm_compute; reflexivity | exact Ht
      | reflexivity | cbn [form_decoders In]; auto].
  - apply (reference_roundtrip _ (form_explicit_name _) _ Codecs.us_ascii);
      [apply name_check; vm_compute; reflexivity | exact Ht
      | reflexivity | cbn [form_decoders In]; auto].
  - apply (reference_roundtrip _ (form_explicit_name _) _ (Codecs.utf_16 big));
      [destruct big; apply name_check; vm_compute; reflexivity | exact Ht
      | destruct big; reflexivity | cbn [form_decoders In]; auto].
  - apply (reference_roundtrip _ (form_explicit_name _) _ (Codecs.utf_32 big));
      [destruct big; apply name_check; vm_compute; reflexivity | exact Ht
      | destruct big; reflexivity | cbn [form_decoders In]; auto].
Qed.

(** ** The claims *)

(** C1 says that whenever the bytes decode under a non-empty protocol
    encoding known to the primitive, [decode] returns that decoded text.
    The empty input decodes under [utf8], to the empty text, and [decode]
    raises [IndexError] there instead of returning it: [try_encoding]
    reads the first character of the decoded text without testing that
    there is one.  (For a non-empty decoded text the claim holds:
    [protocol_tier_wins].) *)
Theorem protocol_tier_empty_input :
  py_codec (str "utf8") [] = Ok [] /\
  decode py_codec [] (Some (str "utf8")) None None = Raise IndexError.
Proof. split; vm_compute; reflexivity. Qed.

(** C2 says that the trial decode of an entry with a fixed encoding name
    is returned whenever the decode succeeds.  The input [FF FE], a UTF-16
    little-endian byte-order mark and nothing else, matches the last entry
    of the table and decodes under its name, [UTF-16-LE]; [try_encoding]
    gives the empty text, which the loop tests for truth and drops, and
    [decode] ends with the error of the UTF-8 fallback.  (The other part
    of the claim holds: [sniff_entry_declared], and [sniff_entry_fixed]
    for a non-empty text.) *)
Theorem bom_only_input_not_returned :
  first_match ENCODING_MAGIC_NUMBERS [xff; xfe]
  = Some ((2%nat, Name (str "UTF-16-LE"), re_lit [xff; xfe]),
          {| group1 := None |}) /\
  try_encoding py_codec [xff; xfe] (str "UTF-16-LE") true = Ok (Some []) /\
  sniff py_codec ENCODING_MAGIC_NUMBERS [xff; xfe] = Ok None /\
  decode py_codec [xff; xfe] None None None = Raise UnicodeDecodeError.
Proof. repeat split; vm_compute; reflexivity. Qed.

(** C3: the sniffing tier tries one entry of the table at most.  When an
    entry matches and none before it does, the outcome of the loop is the
    outcome of the loop body on that entry, whichever entries follow it;
    and when that attempt does not return (its trial decode fails, or its
    result is rejected), [decode] goes on with the linking and document
    encodings and then the fallback. *)
Theorem sniff_tries_first_match_only
        (decode_bytes : codec) (pre post : list entry) (e : entry)
        (m : Match) (css_bytes : bytes) :
  ENCODING_MAGIC_NUMBERS = pre ++ e :: post ->
  no_signature pre css_bytes ->
  re_match (pattern_of e) css_bytes = Some m ->
  sniff decode_bytes ENCODING_MAGIC_NUMBERS css_bytes
  = sniff_entry decode_bytes css_bytes (encoding_of e) m /\
  (forall post',
      sniff decode_bytes (pre ++ e :: post') css_bytes
      = sniff_entry decode_bytes css_bytes (encoding_of e) m) /\
  (forall p l d,
      try_metadata decode_bytes css_bytes p = Ok None ->
      sniff_entry decode_bytes css_bytes (encoding_of e) m = Ok None ->
      decode decode_bytes css_bytes p l d
      = or_else (try_each decode_bytes css_bytes [l; d])
                (try_encoding decode_bytes css_bytes (str "utf8") false)).
Proof.
  intros Htable Hpre Hm.
  destruct (sniff_first_match_only_with decode_bytes pre post e m css_bytes
              Hpre Hm) as [Hs Hd].
  unfold decode. rewrite Htable. auto.
Qed.

(** C5 says that a text that starts with a rule [@charset "E";], written
    in one of the forms of the table in an encoding that agrees with [E],
    is given back by [decode].  The text [@charset "utf16";a] written in
    UTF-16 little-endian after the byte-order mark is such a text: under
    the name [utf16] the primitive reads it back.  The sniffing tier
    finds [utf16], takes it for a bare UTF-16 (the test drops hyphens
    and underscores) and adds [-LE] to the name as found; [utf16-LE] is
    no name of the registry, which has [utf-16-le], [utf_16_le] and
    [utf-16le]; the candidate is skipped and the call ends with the error
    of the UTF-8 fallback.  (With the hyphen, or with the byte order in
    the name, the text is given back: [roundtrip_all_forms],
    [roundtrip_explicit_names].) *)
Theorem unhyphenated_utf16_is_not_read
        (css_bytes : bytes) (css_text : text) :
  css_text = at_charset_text (str "utf16") ++ str "a" ->
  css_bytes = encode_text (Utf16 false true) css_text ->
  css_bytes
  = hex2re ("FF FE 40 00 63 00 68 00 61 00 72 00 73 00 65 00 74 00 20 00"
            ++ "22 00 75 00 74 00 66 00 31 00 36 00 22 00 3B 00 61 00") /\
  py_codec (str "utf16") css_bytes = Ok css_text /\
  (exists e m,
      nth_error ENCODING_MAGIC_NUMBERS 5 = Some e /\
      first_match ENCODING_MAGIC_NUMBERS css_bytes = Some (e, m) /\
      candidate (encoding_of e) m = Ok (str "utf16-LE")) /\
  py_codec (str "utf16-LE") css_bytes = Raise LookupError /\
  decode py_codec css_bytes None None None = Raise UnicodeDecodeError.
Proof.
  intros -> ->.
  split; [vm_compute; reflexivity|].
  split; [vm_compute; reflexivity|].
  split.
  { eexists _, _.
    split; [vm_compute; reflexivity|].
    split; vm_compute; reflexivity. }
  split; vm_compute; reflexivity.
Qed.

(** C6: on the UTF-16 big-endian byte-order mark followed by
    [@charset "UTF-16";] in UTF-16 big-endian, the fourth entry of the
    table is the first that matches; the odd bytes of its group are the
    name [UTF-16], which normalizes to [utf16], so that [-BE] is added to
    the name as found; the whole input is decoded as [UTF-16-BE], and the
    text returned is the rule, without byte-order mark. *)
Theorem utf16be_bom_at_charset (decode_bytes : codec) :
  let css_bytes :=
    hex2re ("FE FF 00 40 00 63 00 68 00 61 00 72 00 73 00 65 00 74 00 20"
            ++ "00 22 00 55 00 54 00 46 00 2D 00 31 00 36 00 22 00 3B") in
  decode_bytes (str "UTF-16-BE") css_bytes = Codecs.utf_16 true css_bytes ->
  exists e m g,
    nth_error ENCODING_MAGIC_NUMBERS 3 = Some e /\
    first_match ENCODING_MAGIC_NUMBERS css_bytes = Some (e, m) /\
    encoding_of e = AsSpecified (Slice 1 2) (str "-BE") /\
    group m = Ok g /\
    ascii_replace (Slice 1 2 g) = str "UTF-16" /\
    lower (remove_char (N_of_ascii "_")
             (remove_char (N_of_ascii "-") (str "UTF-16"))) = str "utf16" /\
    candidate (encoding_of e) m = Ok (str "UTF-16" ++ str "-BE") /\
    decode decode_bytes css_bytes None None None
    = Ok (Some (at_charset_text (str "UTF-16"))) /\
    startswith (at_charset_text (str "UTF-16")) [BOM] = false.
Proof.
  intros css_bytes H. subst css_bytes.
  eexists _, _, _.
  split; [vm_compute; reflexivity|].
  split; [vm_compute; reflexivity|].
  split; [vm_compute; reflexivity|].
  split; [vm_compute; reflexivity|].
  split; [vm_compute; reflexivity|].
  split; [vm_compute; reflexivity|].
  split; [vm_compute; reflexivity|].
  split; [|vm_compute; reflexivity].
  vm_compute in H. vm_compute. rewrite H. reflexivity.
Qed.

(** C7: input that is not valid UTF-8, matches no entry of the table and
    comes with no usable protocol, linking or document encoding makes
    [decode] raise the decode error of the fallback tier. *)
Theorem fallback_error_propagates
        (decode_bytes : codec) (css_bytes : bytes) (p l d : option text) :
  decode_bytes (str "utf8") css_bytes = Codecs.utf_8 css_bytes ->
  Codecs.utf_8 css_bytes = Raise UnicodeDecodeError ->
  no_signature ENCODING_MAGIC_NUMBERS css_bytes ->
  unusable decode_bytes css_bytes p ->
  unusable decode_bytes css_bytes l ->
  unusable decode_bytes css_bytes d ->
  decode decode_bytes css_bytes p l d = Raise UnicodeDecodeError.
Proof. intros. now apply fallback_error_with. Qed.

(** C9 says that plain ASCII text with no byte-order mark and no
    [@charset] rule, given with no metadata encoding, is returned as its
    UTF-8 decode.  The empty style sheet is such a text, and [decode]
    raises [IndexError] on it: the UTF-8 decode is the empty text, whose
    first character [try_encoding] reads.  (For a non-empty text the claim
    holds: [plain_ascii_decodes_as_utf8].) *)
Theorem plain_ascii_empty_input :
  Forall ascii_char [] /\
  ~ has_at_charset_rule [] /\
  no_signature ENCODING_MAGIC_NUMBERS [] /\
  py_codec (str "utf8") [] = Ok [] /\
  decode py_codec [] None None None = Raise IndexError.
Proof.
  split; [constructor|].
  split; [intros (E & rest & H); discriminate|].
  split; [apply matches_none_sound; vm_compute; reflexivity|].
  split; vm_compute; reflexivity.
Qed.

(** C10, as amended: on the empty input [decode] returns nothing,
    whatever the metadata encodings are: a trial decode that succeeds
    gives the empty text, the UTF-8 fallback among them, and its first
    character is read outside the [try] block.  The call raises
    [IndexError] when the primitive, on each metadata encoding given,
    decodes or fails with one of the two errors that [try_encoding]
    catches; an error of another class is not caught. *)
Theorem empty_input_never_returns
        (decode_bytes : codec) (p l d : option text) :
  (forall encoding t, decode_bytes encoding [] = Ok t -> t = []) ->
  decode_bytes (str "utf8") [] = Ok [] ->
  (exists e, decode decode_bytes [] p l d = Raise e) /\
  (fails_softly decode_bytes [] p ->
   fails_softly decode_bytes [] l ->
   fails_softly decode_bytes [] d ->
   decode decode_bytes [] p l d = Raise IndexError).
Proof.
  intros Hempty Hutf8. apply empty_input_with; auto.
  apply matches_none_sound. vm_compute. reflexivity.
Qed.

(** ** The claims on concrete inputs *)

(** The table's second entry would decode this input, as UTF-8; the first
    one matches, names an unknown encoding, and ends the loop. *)
Lemma sniff_tries_first_match_only_witness :
  sniff py_codec ENCODING_MAGIC_NUMBERS
    (hex2re "EF BB BF" ++ at_charset_rule (ascii_bytes "bogus")) = Ok None /\
  decode py_codec
    (hex2re "EF BB BF" ++ at_charset_rule (ascii_bytes "bogus"))
    None (Some (str "latin1")) None
  = Ok (Some (map Byte.to_N
                (hex2re "EF BB BF" ++ at_charset_rule (ascii_bytes "bogus")))).
Proof.
  destruct (sniff_tries_first_match_only py_codec []
              (tl ENCODING_MAGIC_NUMBERS)
              (3%nat, AsSpecified (Slice 0 1) (str EmptyString),
               re_lit_group_lit
                 (hex2re "EF BB BF 40 63 68 61 72 73 65 74 20 22")
                 [any_but_quote] (hex2re "22 3B"))
              {| group1 := Some (ascii_bytes "bogus") |}
              (hex2re "EF BB BF" ++ at_charset_rule (ascii_bytes "bogus"))
              eq_refl (Forall_nil _) eq_refl) as (Hs & _ & Hd).
  split.
  - rewrite Hs. vm_compute. reflexivity.
  - rewrite Hd; vm_compute; reflexivity.
Defined.

(** C4, as stated, fails: of two leading U+FEFF one is left. *)
Lemma double_bom_keeps_one :
  exists t,
    decode py_codec (hex2re "EF BB BF EF BB BF 61") None None None
    = Ok (Some t) /\
    startswith t [BOM] = true.
Proof. exists [BOM; 97]. split; vm_compute; reflexivity. Qed.

Lemma decode_strips_one_bom_witness :
  decode py_codec (hex2re "EF BB BF 61") None None None = Ok (Some [97]) /\
  exists encoding t,
    py_codec encoding (hex2re "EF BB BF 61") = Ok t /\ [97] = strip_bom t /\
    (startswith [97] [BOM] = true -> startswith t [BOM; BOM] = true).
Proof.
  assert (H : decode_with py_codec ENCODING_MAGIC_NUMBERS
                (hex2re "EF BB BF 61") None None None = Ok (Some [97]))
    by (vm_compute; reflexivity).
  split; [exact H|].
  exact (decode_strips_one_bom py_codec _ _ _ _ _ _ H).
Defined.

Lemma unhyphenated_utf16_is_not_read_witness :
  py_codec (str "utf16")
    (encode_text (Utf16 false true) (at_charset_text (str "utf16") ++ str "a"))
  = Ok (at_charset_text (str "utf16") ++ str "a") /\
  decode py_codec
    (encode_text (Utf16 false true) (at_charset_text (str "utf16") ++ str "a"))
    None None None
  = Raise UnicodeDecodeError.
Proof.
  destruct (unhyphenated_utf16_is_not_read _ _ eq_refl eq_refl)
    as (_ & H1 & _ & _ & H2).
  split; assumption.
Defined.

Lemma utf16be_bom_at_charset_witness :
  decode py_codec
    (hex2re ("FE FF 00 40 00 63 00 68 00 61 00 72 00 73 00 65 00 74 00 20"
             ++ "00 22 00 55 00 54 00 46 00 2D 00 31 00 36 00 22 00 3B"))
    None None None
  = Ok (Some (at_charset_text (str "UTF-16"))).
Proof.
  destruct (utf16be_bom_at_charset py_codec eq_refl)
    as (e & m & g & _ & _ & _ & _ & _ & _ & _ & H & _).
  exact H.
Defined.

Lemma fallback_error_propagates_witness :
  decode py_codec [x80] (Some (str "bogus")) None (Some (str "ascii"))
  = Raise UnicodeDecodeError.
Proof.
  apply fallback_error_propagates.
  - reflexivity.
  - reflexivity.
  - apply matches_none_sound. vm_compute. reflexivity.
  - right. exists (str "bogus"). split; [reflexivity|]. left. reflexivity.
  - left. reflexivity.
  - right. exists (str "ascii"). split; [reflexivity|]. right. reflexivity.
Defined.

Lemma unknown_encoding_is_skipped_witness :
  decode py_codec (ascii_bytes "a{}") (Some (str "bogus")) None None
  = decode py_codec (ascii_bytes "a{}") None None None /\
  decode py_codec (ascii_bytes "a{}") (Some (str "bogus")) None None
  <> Raise LookupError.
Proof.
  destruct (unknown_encoding_is_skipped py_codec py_codec_utf8_known)
    as (_ & Hp & _ & _ & _ & Hn).
  split.
  - apply Hp. reflexivity.
  - apply Hn.
Defined.

(** C10, as stated, fails: a protocol encoding with a NUL character in
    its name makes the primitive raise [ValueError], which is not caught. *)
Lemma empty_input_nul_name :
  decode py_codec [] (Some (str "a" ++ [0])) None None = Raise ValueError /\
  decode py_codec [] (Some (str "a" ++ [0])) None None <> Raise IndexError.
Proof. split; [vm_compute; reflexivity|vm_compute; discriminate]. Qed.

Lemma empty_input_never_returns_witness :
  decode py_codec [] (Some (str "latin1")) (Some (str "bogus")) None
  = Raise IndexError.
Proof.
  apply (empty_input_never_returns py_codec
           (Some (str "latin1")) (Some (str "bogus")) None
           py_codec_empty eq_refl).
  - intros name e [= <-] H. vm_compute in H. discriminate.
  - intros name e [= <-] H. vm_compute in H. injection H as <-. auto.
  - intros name e H. discriminate.
Defined.

(** ** Further properties of the resolver *)

Lemma try_encoding_index_error
      (decode_bytes : codec) css_bytes encoding fallback :
  try_encoding decode_bytes css_bytes encoding fallback = Raise IndexError ->
  decode_bytes encoding css_bytes = Ok [] \/
  decode_bytes encoding css_bytes = Raise IndexError.
Proof.
  unfold try_encoding.
  destruct (decode_bytes encoding css_bytes) as [t|e].
  - destruct t as [|c t]; simpl; [auto|].
    destruct (c =? BOM); discriminate.
  - destruct e, fallback; simpl; auto; discriminate.
Qed.

Lemma try_metadata_index_error (decode_bytes : codec) css_bytes encoding :
  try_metadata decode_bytes css_bytes encoding = Raise IndexError ->
  exists name, decode_bytes name css_bytes = Ok [] \/
               decode_bytes name css_bytes = Raise IndexError.
Proof.
  destruct encoding as [[|c s]|]; simpl; try discriminate.
  intros H. exists (c :: s). now apply try_encoding_index_error in H.
Qed.

Lemma first_match_In (table : list entry) (css_bytes : bytes) e m :
  first_match table css_bytes = Some (e, m) ->
  In e table /\ re_match (pattern_of e) css_bytes = Some m.
Proof.
  induction table as [|e0 table IH]; simpl; [discriminate|].
  destruct (re_match (pattern_of e0) css_bytes) as [m0|] eqn:E.
  - intros [= <- <-]. auto.
  - intros H. apply IH in H. tauto.
Qed.

(** An entry of the table that takes its encoding from the [@charset]
    rule has a pattern with a group: [match.group(1)] never fails. *)
Lemma table_candidate (e : entry) (m : Match) (css_bytes : bytes) :
  In e ENCODING_MAGIC_NUMBERS ->
  re_match (pattern_of e) css_bytes = Some m ->
  exists name, candidate (encoding_of e) m = Ok name.
Proof.
  intros He Hm. unfold ENCODING_MAGIC_NUMBERS in He.
  repeat (destruct He as [<-|He]); try contradiction;
    unfold encoding_of, pattern_of in *; cbn [fst snd] in *;
    try (eexists; reflexivity);
    apply re_match_group_sound in Hm;
    destruct Hm as (g & rest & Hg & _);
    unfold candidate, group; rewrite Hg; cbn [bind];
    destruct (is_bare_utf _); eauto.
Qed.

(** X2: when [decode] raises [UnicodeDecodeError], it is the error that
    the primitive raised on the whole input under the name [utf8], in the
    last tier; input that decodes as [utf8] never ends in a decode error,
    whatever the metadata encodings and the content are. *)
Theorem decode_error_is_fallback_error
        (decode_bytes : codec) (css_bytes : bytes) (p l d : option text) :
  decode decode_bytes css_bytes p l d = Raise UnicodeDecodeError ->
  decode_bytes (str "utf8") css_bytes = Raise UnicodeDecodeError.
Proof.
  unfold decode, decode_with. intros H.
  apply or_else_raises in H. destruct H as [H|[_ H]].
  { apply try_metadata_raises in H. destruct H; congruence. }
  apply or_else_raises in H. destruct H as [H|[_ H]].
  { apply sniff_raises in H. destruct H; congruence. }
  apply or_else_raises in H. destruct H as [H|[_ H]].
  { apply try_each_raises in H. destruct H; congruence. }
  unfold try_encoding in H.
  destruct (decode_bytes (str "utf8") css_bytes) as [t|e].
  - destruct t as [|c t]; simpl in H; [discriminate|].
    destruct (c =? BOM); discriminate.
  - destruct e; simpl in H; congruence.
Qed.

(** X3: for a primitive that raises nothing but [UnicodeDecodeError] and
    [LookupError], [decode] raises [IndexError] only when one of its trial
    decodes of the input gave the empty text. *)
Theorem index_error_only_on_empty_text
        (decode_bytes : codec) (css_bytes : bytes) (p l d : option text) :
  (forall encoding bs, decode_bytes encoding bs <> Raise IndexError) ->
  decode decode_bytes css_bytes p l d = Raise IndexError ->
  exists encoding, decode_bytes encoding css_bytes = Ok [].
Proof.
  intros Hprim H. unfold decode, decode_with in H.
  assert (Hm : forall encoding,
             try_metadata decode_bytes css_bytes encoding = Raise IndexError ->
             exists name, decode_bytes name css_bytes = Ok []).
  { intros encoding He. apply try_metadata_index_error in He.
    destruct He as (name & [He|He]); [eauto|]. now apply Hprim in He. }
  assert (Ht : forall encoding fallback,
             try_encoding decode_bytes css_bytes encoding fallback
             = Raise IndexError ->
             exists name, decode_bytes name css_bytes = Ok []).
  { intros encoding fallback He. apply try_encoding_index_error in He.
    destruct He as [He|He]; [eauto|]. now apply Hprim in He. }
  apply or_else_raises in H. destruct H as [H|[_ H]]; [eauto|].
  apply or_else_raises in H. destruct H as [H|[_ H]].
  { rewrite sniff_first_match in H.
    destruct (first_match ENCODING_MAGIC_NUMBERS css_bytes) as [[e m]|] eqn:E;
      [|discriminate].
    apply first_match_In in E. destruct E as [He Hre].
    destruct (table_candidate e m css_bytes He Hre) as (name & Hc).
    unfold sniff_entry in H. rewrite Hc in H. cbn [bind] in H.
    destruct (try_encoding decode_bytes css_bytes name true) as [t|e'] eqn:Et.
    - cbn [bind] in H. destruct (_ && _); discriminate.
    - cbn [bind] in H. injection H as ->. eauto. }
  apply or_else_raises in H. destruct H as [H|[_ H]]; [|eauto].
  cbn [try_each] in H.
  apply or_else_raises in H. destruct H as [H|[_ H]]; [eauto|].
  apply or_else_raises in H. destruct H as [H|[_ H]]; [eauto|discriminate].
Qed.

(** X4: when the protocol tier and the sniffing tier give nothing, the
    linking encoding comes before the document encoding: a non-empty
    decode under the linking encoding is returned whatever the document
    encoding is, and the document encoding is used when the linking one
    is unusable. *)
Theorem linking_before_document
        (decode_bytes : codec) (css_bytes : bytes) (p : option text)
        (name : text) (t : text) :
  try_metadata decode_bytes css_bytes p = Ok None ->
  sniff decode_bytes ENCODING_MAGIC_NUMBERS css_bytes = Ok None ->
  name <> [] ->
  decode_bytes name css_bytes = Ok t -> t <> [] ->
  (forall d,
      decode decode_bytes css_bytes p (Some name) d = Ok (Some (strip_bom t))) /\
  (forall l,
      unusable decode_bytes css_bytes l ->
      decode decode_bytes css_bytes p l (Some name) = Ok (Some (strip_bom t))).
Proof.
  intros Hp Hs Hn Hd Ht.
  assert (Hm : try_metadata decode_bytes css_bytes (Some name)
               = Ok (Some (strip_bom t))).
  { rewrite try_metadata_truthy by assumption.
    now apply try_encoding_decoded. }
  split.
  - intros d. unfold decode, decode_with. rewrite Hp, Hs.
    cbn [try_each]. rewrite Hm. reflexivity.
  - intros l Hl. unfold decode, decode_with. rewrite Hp, Hs.
    cbn [try_each]. rewrite (try_metadata_unusable _ _ _ Hl), Hm.
    reflexivity.
Qed.

(** X5: a metadata encoding that is empty, unknown, or under which the
    bytes do not decode counts for nothing: [decode] gives what it gives
    without it, in each of the three places. *)
Theorem unusable_metadata_is_ignored
        (decode_bytes : codec) (css_bytes : bytes) (p l d : option text) :
  (unusable decode_bytes css_bytes p ->
   decode decode_bytes css_bytes p l d
   = decode decode_bytes css_bytes None l d) /\
  (unusable decode_bytes css_bytes l ->
   decode decode_bytes css_bytes p l d
   = decode decode_bytes css_bytes p None d) /\
  (unusable decode_bytes css_bytes d ->
   decode decode_bytes css_bytes p l d
   = decode decode_bytes css_bytes p l None).
Proof.
  unfold decode, decode_with. repeat split; intros H; cbn [try_each];
    now rewrite (try_metadata_unusable _ _ _ H).
Qed.

(** X6: the acceptance rule of the sniffing tier, for a trial decode that
    gives a non-empty text: the text is returned, unless the encoding was
    read from an [@charset] rule and the text does not start with
    [at_charset_prefix]. *)
Theorem sniff_acceptance
        (decode_bytes : codec) (css_bytes : bytes)
        (e : entry) (m : Match) (name t : text) :
  first_match ENCODING_MAGIC_NUMBERS css_bytes = Some (e, m) ->
  candidate (encoding_of e) m = Ok name ->
  try_encoding decode_bytes css_bytes name true = Ok (Some t) ->
  t <> [] ->
  sniff decode_bytes ENCODING_MAGIC_NUMBERS css_bytes
  = Ok (if has_at_charset (encoding_of e)
           && negb (startswith t at_charset_prefix)
        then None else Some t).
Proof.
  intros Hf Hc Ht Hne. rewrite sniff_first_match, Hf.
  unfold sniff_entry. rewrite Hc. cbn [bind]. rewrite Ht.
  cbn [bind nonempty starts_with_at_charset].
  destruct t as [|c t]; [congruence|]. cbn [andb].
  now destruct (has_at_charset (encoding_of e) && _).
Qed.

(** ** Further properties of the patterns and of the table *)

Lemma every_nth {A} (step : nat) (l : list A) :
  (1 <= step)%nat ->
  forall skip k,
    nth_error (every step skip l) k = nth_error l (skip + k * step).
Proof.
  intros Hstep. induction l as [|x l IH]; intros skip k.
  - simpl. generalize (skip + k * step)%nat. intros n.
    now destruct k, n.
  - destruct skip as [|skip]; simpl every.
    + destruct k as [|k]; [reflexivity|].
      simpl nth_error at 1. rewrite IH.
      replace (0 + S k * step)%nat with (S (Nat.pred step + k * step)) by lia.
      reflexivity.
    + rewrite IH. reflexivity.
Qed.

(** X7: [Slice[start::step]] picks the items at [start], [start+step],
    [start+2*step], ...: item [k] of the slice is item [start + k*step]
    of the sequence, and the slice ends where the sequence does. *)
Theorem Slice_nth {A} (start step : nat) (l : list A) (k : nat) :
  (1 <= step)%nat ->
  nth_error (Slice start step l) k = nth_error l (start + k * step).
Proof. intros Hstep. unfold Slice. now apply every_nth. Qed.

Lemma match_unit_atoms (u : list atom) :
  forall bs g r,
    match_unit u bs = Some (g, r) ->
    bs = g ++ r /\ Forall2 (fun a b => match_atom a b = true) u g.
Proof.
  induction u as [|a u IH]; intros [|b bs] g r; simpl; try discriminate.
  - intros [= <- <-]. auto.
  - intros [= <- <-]. auto.
  - destruct (match_atom a b) eqn:Ea; [|discriminate].
    destruct (match_unit u bs) as [[g' r']|] eqn:E; [|discriminate].
    intros [= <- <-]. destruct (IH _ _ _ E) as [-> HF]. auto.
Qed.

Lemma esc_atom (x b : byte) : match_atom (Esc x) b = true -> b = x.
Proof. simpl. intros H. now apply byte_dec_bl in H. Qed.

Lemma except_atom (x b : byte) : match_atom (Except x) b = true -> b <> x.
Proof.
  simpl. intros H ->. now rewrite (byte_dec_lb (eq_refl x)) in H.
Qed.

Lemma form_unit_inv (f : form) (bs g r : bytes) :
  match_unit (form_unit f) bs = Some (g, r) ->
  exists b, b <> x22 /\ g = widen f b /\ bs = widen f b ++ r.
Proof.
  intros H. apply match_unit_atoms in H. destruct H as [-> HF].
  destruct f as [bom|[] bom|[] bom]; cbn [form_unit] in HF;
    unfold any_but_quote in HF;
    repeat match goal with
           | H : Forall2 _ (_ :: _) _ |- _ => inversion H; subst; clear H
           | H : Forall2 _ [] _ |- _ => inversion H; subst; clear H
           | H : match_atom (Esc _) _ = true |- _ => apply esc_atom in H; subst
           | H : match_atom (Except _) _ = true |- _ => apply except_atom in H
           end;
    eexists; repeat split; eauto.
Qed.

Lemma lazy_star_inv (f : form) :
  forall fuel bs acc g,
    lazy_star fuel (form_unit f) (form_suffix f) bs acc = Some g ->
    exists E rest,
      Forall (fun b => b <> x22) E /\
      g = acc ++ flat_map (widen f) E /\
      bs = flat_map (widen f) E ++ form_suffix f ++ rest.
Proof.
  assert (Hexit : forall bs acc r,
             match_lit (form_suffix f) bs = Some r ->
             exists E rest,
               Forall (fun b => b <> x22) E /\
               acc = acc ++ flat_map (widen f) E /\
               bs = flat_map (widen f) E ++ form_suffix f ++ rest).
  { intros bs acc r Hr. apply match_lit_sound in Hr.
    exists [], r. simpl. rewrite app_nil_r. auto. }
  induction fuel as [|fuel IH]; intros bs acc g; simpl.
  - destruct (match_lit (form_suffix f) bs) as [r|] eqn:E; [|discriminate].
    intros [= <-]. eauto.
  - destruct (match_lit (form_suffix f) bs) as [r|] eqn:E.
    + intros [= <-]. eauto.
    + destruct (match_unit (form_unit f) bs) as [[g1 r1]|] eqn:E1;
        [|discriminate].
      intros H. apply IH in H. destruct H as (E' & rest & HE' & -> & ->).
      apply form_unit_inv in E1. destruct E1 as (b & Hb & -> & ->).
      exists (b :: E'), rest. repeat split.
      * now constructor.
      * simpl. now rewrite <- app_assoc.
      * simpl. now rewrite <- app_assoc.
Qed.

Lemma form_pattern_inv (f : form) (css_bytes : bytes) (m : Match) :
  re_match (re_lit_group_lit (form_prefix f) (form_unit f) (form_suffix f))
           css_bytes = Some m ->
  exists E rest,
    Forall (fun b => b <> x22) E /\
    group1 m = Some (flat_map (widen f) E) /\
    css_bytes = encode_form f E rest.
Proof.
  simpl. destruct (match_lit (form_prefix f) css_bytes) as [r1|] eqn:E1;
    [|discriminate].
  destruct (lazy_star _ _ _ r1 []) as [g|] eqn:E2; [|discriminate].
  intros [= <-]. apply match_lit_sound in E1. apply lazy_star_inv in E2.
  destruct E2 as (E & rest & HE & -> & ->).
  exists E, rest. rewrite encode_form_shape. simpl. subst. auto.
Qed.

Lemma form_pattern_matches (f : form) (E rest : bytes) :
  Forall (fun b => b <> x22) E ->
  re_match (re_lit_group_lit (form_prefix f) (form_unit f) (form_suffix f))
           (encode_form f E rest)
  = Some {| group1 := Some (flat_map (widen f) E) |}.
Proof.
  intros HE. rewrite encode_form_shape. simpl. rewrite match_lit_app.
  rewrite lazy_star_name; [reflexivity|assumption|].
  rewrite length_app. pose proof (length_widen f E). lia.
Qed.

(** X9: what the patterns of the [@charset] entries match.  The entry of
    form [f] matches an input, with group [g], exactly when the input is
    the byte-order mark of the form (if it has one) and the rule
    [@charset "E";] in the form, for a name [E] with no quote in it, and
    [g] is [E] in the form; the name goes up to the first quote. *)
Theorem at_charset_pattern_matches
        (f : form) (e : entry) (css_bytes g : bytes) :
  nth_error ENCODING_MAGIC_NUMBERS (form_entry f) = Some e ->
  re_match (pattern_of e) css_bytes = Some {| group1 := Some g |} <->
  exists E rest,
    Forall (fun b => b <> x22) E /\
    g = flat_map (widen f) E /\
    css_bytes = encode_form f E rest.
Proof.
  rewrite form_table. intros [= <-]. unfold pattern_of. cbn [snd]. split.
  - intros H. apply form_pattern_inv in H.
    destruct H as (E & rest & HE & Hg & ->). cbn [group1] in Hg.
    injection Hg as ->. eauto.
  - intros (E & rest & HE & -> & ->). now apply form_pattern_matches.
Qed.

Lemma to_N_quote (b : byte) : Byte.to_N b = dquote -> b = x22.
Proof.
  intros H. pose proof (Byte.of_to_N b) as Hb. rewrite H in Hb.
  vm_compute in Hb. congruence.
Qed.

Lemma ascii_replace_no_quote (E : bytes) :
  Forall (fun b => b <> x22) E -> ~ In dquote (ascii_replace E).
Proof.
  induction 1 as [|b E Hb _ IH]; simpl; [tauto|].
  intros [H|H]; [|tauto].
  destruct (Byte.to_N b <? 128); [|discriminate].
  now apply to_N_quote in H.
Qed.

Lemma form_endianness_clean (f : form) :
  ~ In dquote (form_endianness f) /\
  Forall (fun c => c < 128 \/ c = 0xFFFD) (form_endianness f).
Proof.
  destruct f as [bom|[] bom|[] bom]; (split;
    [ vm_compute; intuition discriminate
    | repeat constructor; left; vm_compute; reflexivity ]).
Qed.

(** X10: the encoding name that the sniffing tier takes from an
    [@charset] rule and hands to the decode primitive never has a double
    quote in it, and its characters are ASCII or U+FFFD. *)
Theorem declared_name_is_clean
        (f : form) (e : entry) (m : Match) (css_bytes : bytes) (name : text) :
  nth_error ENCODING_MAGIC_NUMBERS (form_entry f) = Some e ->
  re_match (pattern_of e) css_bytes = Some m ->
  candidate (encoding_of e) m = Ok name ->
  ~ In dquote name /\ Forall (fun c => c < 128 \/ c = 0xFFFD) name.
Proof.
  rewrite form_table. intros [= <-]. unfold pattern_of, encoding_of.
  cbn [fst snd]. intros Hm Hc.
  apply form_pattern_inv in Hm. destruct Hm as (E & rest & HE & Hg & _).
  unfold candidate, group in Hc. rewrite Hg in Hc. cbn [bind] in Hc.
  rewrite Slice_widen in Hc.
  pose proof (ascii_replace_no_quote E HE) as Hq.
  pose proof (ascii_replace_range E) as Hr.
  destruct (form_endianness_clean f) as [Hsq Hsr].
  destruct (is_bare_utf (ascii_replace E)); injection Hc as <-.
  - split; [rewrite in_app_iff; tauto|now apply Forall_app].
  - auto.
Qed.

Lemma form_prefix_clash (f1 f2 : form) :
  f1 <> f2 -> clash (form_prefix f1) (form_prefix f2) = true.
Proof.
  destruct f1 as [[]|[] []|[] []], f2 as [[]|[] []|[] []]; intros H;
    first [congruence | vm_compute; reflexivity].
Qed.

Lemma form_eq_dec (f1 f2 : form) : {f1 = f2} + {f1 <> f2}.
Proof. decide equality; apply bool_dec. Qed.

(** X11: the patterns of the [@charset] entries exclude one another: no
    input is matched by the entries of two different forms, so that the
    order of these entries among themselves does not matter. *)
Theorem at_charset_patterns_disjoint
        (f1 f2 : form) (e1 e2 : entry) (m1 m2 : Match) (css_bytes : bytes) :
  nth_error ENCODING_MAGIC_NUMBERS (form_entry f1) = Some e1 ->
  nth_error ENCODING_MAGIC_NUMBERS (form_entry f2) = Some e2 ->
  re_match (pattern_of e1) css_bytes = Some m1 ->
  re_match (pattern_of e2) css_bytes = Some m2 ->
  f1 = f2.
Proof.
  rewrite !form_table. intros [= <-] [= <-].
  unfold pattern_of. cbn [snd]. intros H1 H2.
  destruct (form_eq_dec f1 f2) as [|Hne]; [assumption|exfalso].
  apply re_match_group_sound in H1. destruct H1 as (g & rest & _ & ->).
  apply not_eq_sym in Hne.
  rewrite (re_match_clash (re_lit_group_lit _ _ _) _ _
             (form_prefix_clash f2 f1 Hne)) in H2.
  discriminate.
Qed.

(** X12: no entry of the table is shadowed by the entries before it:
    each one is the first match of some input. *)
Theorem every_entry_is_first_match (k : nat) (e : entry) :
  nth_error ENCODING_MAGIC_NUMBERS k = Some e ->
  exists css_bytes m,
    first_match ENCODING_MAGIC_NUMBERS css_bytes = Some (e, m).
Proof.
  intros H.
  exists (match pattern_of e with
          | re_lit l => l
          | re_lit_group_lit l1 _ l2 => l1 ++ l2
          end),
         {| group1 := match pattern_of e with
                      | re_lit _ => None
                      | re_lit_group_lit _ _ _ => Some []
                      end |}.
  do 15 (destruct k as [|k];
         [injection H as <-; vm_compute; reflexivity|]).
  destruct k; discriminate.
Qed.

Lemma no_signature_clash (pre : list entry) (l' tail : bytes) :
  forallb (fun e => clash (lit_of (pattern_of e)) l') pre = true ->
  no_signature pre (l' ++ tail).
Proof.
  unfold no_signature. rewrite forallb_forall, Forall_forall.
  intros H e He. apply re_match_clash. auto.
Qed.

(** X13: an input that starts with [FF FE 00 00] is taken for UTF-32
    little-endian, never for UTF-16 little-endian: its first match is one
    of the two UTF-32 little-endian entries, which stand before the entry
    of the UTF-16 little-endian byte-order mark [FF FE]. *)
Theorem utf32le_bom_before_utf16le (rest : bytes) :
  exists e m,
    first_match ENCODING_MAGIC_NUMBERS (xff :: xfe :: x00 :: x00 :: rest)
    = Some (e, m) /\
    (encoding_of e = Name (str "UTF-32-LE") \/
     encoding_of e = AsSpecified (Slice 0 4) (str "-LE")).
Proof.
  change (xff :: xfe :: x00 :: x00 :: rest)
    with ([xff; xfe; x00; x00] ++ rest).
  change ENCODING_MAGIC_NUMBERS
    with (firstn 9 ENCODING_MAGIC_NUMBERS ++ skipn 9 ENCODING_MAGIC_NUMBERS).
  rewrite first_match_skip
    by (apply no_signature_clash; vm_compute; reflexivity).
  unfold ENCODING_MAGIC_NUMBERS. cbn [skipn first_match].
  match goal with
  | |- context [re_match ?p ?bs] => destruct (re_match p bs) as [m|] eqn:E
  end.
  - eexists _, m. split; [reflexivity|]. right. reflexivity.
  - rewrite (re_match_clash _ [xff; xfe; x00; x00] rest)
      by (vm_compute; reflexivity).
    rewrite (re_match_clash _ [xff; xfe; x00; x00] rest)
      by (vm_compute; reflexivity).
    eexists _, _. split; [reflexivity|]. left. reflexivity.
Qed.

Lemma match_lit_short (l bs : bytes) :
  (List.length bs < List.length l)%nat -> match_lit l bs = None.
Proof.
  revert bs; induction l as [|x l IH]; intros [|b bs]; simpl; try lia; auto.
  intros H. destruct (Byte.eqb x b); [apply IH; lia|reflexivity].
Qed.

(** X14: an input of fewer than two bytes matches no entry of the table;
    given with no metadata encoding, it is decoded by the last tier. *)
Theorem short_input_matches_nothing
        (decode_bytes : codec) (css_bytes : bytes) :
  (List.length css_bytes < 2)%nat ->
  no_signature ENCODING_MAGIC_NUMBERS css_bytes /\
  decode decode_bytes css_bytes None None None
  = try_encoding decode_bytes css_bytes (str "utf8") false.
Proof.
  intros Hlen.
  assert (Hsig : no_signature ENCODING_MAGIC_NUMBERS css_bytes).
  { assert (H : forallb (fun e => Nat.leb 2 (List.length (lit_of (pattern_of e))))
                        ENCODING_MAGIC_NUMBERS = true)
      by (vm_compute; reflexivity).
    unfold no_signature. rewrite forallb_forall in H. rewrite Forall_forall.
    intros e He. specialize (H e He). apply Nat.leb_le in H.
    destruct (pattern_of e) as [l|l1 u l2]; simpl in *;
      rewrite match_lit_short by lia; reflexivity. }
  split; [exact Hsig|].
  unfold decode, decode_with.
  rewrite sniff_first_match, (first_match_none _ _ Hsig). reflexivity.
Qed.

(** X15: a style sheet that starts with the UTF-8 byte-order mark, with
    no [@charset] rule after it, given with no metadata encoding, is
    returned as the UTF-8 decode of what follows the mark. *)
Theorem utf8_bom_sheet
        (decode_bytes : codec) (rest : bytes) (t : text) :
  ~ has_at_charset_rule rest ->
  decode_bytes (str "UTF-8") (xef :: xbb :: xbf :: rest)
  = Codecs.utf_8 (xef :: xbb :: xbf :: rest) ->
  decode_bytes (str "utf8") (xef :: xbb :: xbf :: rest)
  = Codecs.utf_8 (xef :: xbb :: xbf :: rest) ->
  Codecs.utf_8 rest = Ok t ->
  decode decode_bytes (xef :: xbb :: xbf :: rest) None None None
  = Ok (Some t).
Proof.
  intros Hno Hd1 Hd2 Ht.
  assert (Hu : Codecs.utf_8 (xef :: xbb :: xbf :: rest) = Ok (BOM :: t))
    by (rewrite utf_8_bom, Ht; reflexivity).
  rewrite Hu in Hd1, Hd2.
  assert (Hf : first_match ENCODING_MAGIC_NUMBERS (xef :: xbb :: xbf :: rest)
               = Some ((3%nat, Name (str "UTF-8"), re_lit [xef; xbb; xbf]),
                       {| group1 := None |})).
  { unfold ENCODING_MAGIC_NUMBERS. cbn [first_match].
    match goal with
    | |- context [re_match ?p ?bs] => destruct (re_match p bs) as [m|] eqn:E
    end.
    - exfalso. apply Hno. unfold pattern_of in E. cbn [snd] in E.
      apply re_match_group_sound in E. destruct E as (g & r & _ & E).
      change (hex2re "EF BB BF 40 63 68 61 72 73 65 74 20 22")
        with ([xef; xbb; xbf] ++ ascii_bytes "@charset " ++ [x22]) in E.
      change (hex2re "22 3B") with [x22; x3b] in E.
      rewrite <- app_assoc in E. injection E as ->.
      exists g, r. unfold at_charset_rule. now rewrite <- !app_assoc.
    - change (xef :: xbb :: xbf :: rest) with ([xef; xbb; xbf] ++ rest).
      unfold pattern_of. cbn [snd].
      change (hex2re "EF BB BF") with [xef; xbb; xbf].
      cbn [re_match]. rewrite match_lit_app. reflexivity. }
  unfold decode, decode_with. cbn [try_metadata try_each].
  rewrite !or_else_skip, sniff_first_match, Hf.
  unfold encoding_of, sniff_entry. cbn [fst snd candidate bind].
  rewrite (try_encoding_decoded _ _ _ _ _ Hd1) by discriminate.
  rewrite (try_encoding_decoded _ _ _ _ _ Hd2) by discriminate.
  destruct t as [|c t]; reflexivity.
Qed.

(** X16: an accepted [@charset] rule comes before the linking and the
    document encodings: a style sheet in one of the forms of the table,
    which the primitive reads under the declared encoding, is returned
    as that text whatever these two are. *)
Theorem at_charset_rule_beats_metadata
        (decode_bytes : codec) (f : form) (E rest : bytes) (rest_text : text)
        (l d : option text) :
  Forall (fun b => Byte.to_N b < 128 /\ b <> x22) E ->
  decode_bytes (declared_encoding f (map Byte.to_N E)) (encode_form f E rest)
  = Ok ((if has_bom f then [BOM] else [])
        ++ at_charset_text (map Byte.to_N E) ++ rest_text) ->
  decode decode_bytes (encode_form f E rest) None l d
  = Ok (Some (at_charset_text (map Byte.to_N E) ++ rest_text)).
Proof.
  intros HE Hd.
  unfold decode, decode_with. cbn [try_metadata]. rewrite or_else_skip.
  unfold at_charset_text in *. rewrite <- !app_assoc in *.
  now rewrite (sniff_at_charset_form _ _ _ _ _ HE Hd).
Qed.

(** ** The reference primitive raises decode errors only *)

Lemma units16_raises (big : bool) :
  forall n bs e,
    (List.length bs <= n)%nat ->
    Codecs.units16 big bs = Raise e -> e = UnicodeDecodeError.
Proof.
  induction n as [|n IH]; intros bs e Hn.
  - destruct bs; [discriminate|simpl in Hn; lia].
  - destruct bs as [|b0 [|b1 r]]; simpl; try congruence.
    simpl in Hn.
    destruct (Codecs.units16 big r) as [us|e'] eqn:E; simpl; [discriminate|].
    intros [= <-]. apply (IH r); [lia|assumption].
Qed.

Lemma pair_surrogates_raises :
  forall n us e,
    (List.length us <= n)%nat ->
    Codecs.pair_surrogates us = Raise e -> e = UnicodeDecodeError.
Proof.
  induction n as [|n IH]; intros us e Hn.
  - destruct us; [discriminate|simpl in Hn; lia].
  - destruct us as [|u r]; [discriminate|]. simpl in Hn.
    cbn [Codecs.pair_surrogates].
    repeat match goal with
           | |- context [if ?c then _ else _] => destruct c
           | |- context [match ?r with [] => _ | _ :: _ => _ end] =>
               destruct r; simpl in Hn
           end;
      try congruence;
      intros H; apply push_raises in H; destruct H as [H|H];
      try discriminate; apply IH in H; auto; lia.
Qed.

Lemma utf_16_raises (big : bool) (bs : bytes) (e : exn) :
  Codecs.utf_16 big bs = Raise e -> e = UnicodeDecodeError.
Proof.
  unfold Codecs.utf_16.
  destruct (Codecs.units16 big bs) as [us|e'] eqn:E; simpl.
  - apply (pair_surrogates_raises _ _ _ (le_n _)).
  - intros [= <-]. apply (units16_raises big _ _ _ (le_n _) E).
Qed.

Lemma utf_32_raises (big : bool) :
  forall n bs e,
    (List.length bs <= n)%nat ->
    Codecs.utf_32 big bs = Raise e -> e = UnicodeDecodeError.
Proof.
  induction n as [|n IH]; intros bs e Hn.
  - destruct bs; [discriminate|simpl in Hn; lia].
  - destruct bs as [|b0 [|b1 [|b2 [|b3 r]]]]; simpl; try congruence.
    simpl in Hn.
    intros H; apply push_raises in H; destruct H as [H|H].
    + now apply scalar_raises in H.
    + apply IH in H; auto; lia.
Qed.

Lemma us_ascii_raises (bs : bytes) (e : exn) :
  Codecs.us_ascii bs = Raise e -> e = UnicodeDecodeError.
Proof.
  induction bs as [|b bs IH]; cbn [Codecs.us_ascii]; [discriminate|].
  destruct (Byte.to_N b <? 128); [|congruence].
  intros H; apply push_raises in H; destruct H as [H|H];
    [discriminate|auto].
Qed.

Lemma utf_16_any_raises (bs : bytes) (e : exn) :
  Codecs.utf_16_any bs = Raise e -> e = UnicodeDecodeError.
Proof.
  unfold Codecs.utf_16_any.
  destruct bs as [|b0 [|b1 r]];
    repeat match goal with
           | |- context [if ?c then _ else _] => destruct c
           end; apply utf_16_raises.
Qed.

Lemma utf_32_any_raises (bs : bytes) (e : exn) :
  Codecs.utf_32_any bs = Raise e -> e = UnicodeDecodeError.
Proof.
  unfold Codecs.utf_32_any.
  destruct bs as [|b0 [|b1 [|b2 [|b3 r]]]];
    repeat match goal with
           | |- context [if ?c then _ else _] => destruct c
           end; apply (utf_32_raises _ _ _ _ (le_n _)).
Qed.

Lemma py_codec_raises (encoding : text) (css_bytes : bytes) (e : exn) :
  py_codec encoding css_bytes = Raise e ->
  e = UnicodeDecodeError \/ e = LookupError \/ e = ValueError.
Proof.
  unfold py_codec, Codecs.registry. cbn [Codecs.lookup].
  repeat match goal with
         | |- context [if ?c then _ else _] => destruct c
         end; intros H;
    first [ left; apply (utf_8_raises _ _ _ (le_n _) H)
          | left; apply (utf_16_raises _ _ _ H)
          | left; apply (utf_32_raises _ _ _ _ (le_n _) H)
          | left; apply (us_ascii_raises _ _ H)
          | left; apply (utf_16_any_raises _ _ H)
          | left; apply (utf_32_any_raises _ _ H)
          | discriminate
          | right; left; congruence
          | right; right; congruence ].
Qed.

Lemma py_codec_no_index_error (encoding : text) (css_bytes : bytes) :
  py_codec encoding css_bytes <> Raise IndexError.
Proof.
  intros H. apply py_codec_raises in H. destruct H as [H|[H|H]]; discriminate.
Qed.

(** ** The further properties on concrete inputs *)

Lemma decode_returns_text_witness :
  decode py_codec (ascii_bytes "a{}") None None None <> Ok None.
Proof.
  exact (decode_returns_text py_codec ENCODING_MAGIC_NUMBERS
           (ascii_bytes "a{}") None None None).
Defined.

Lemma decode_error_is_fallback_error_witness :
  py_codec (str "utf8") [x80] = Raise UnicodeDecodeError.
Proof.
  apply (decode_error_is_fallback_error py_codec [x80]
           (Some (str "ascii")) None None).
  vm_compute. reflexivity.
Defined.

Lemma index_error_only_on_empty_text_witness :
  exists encoding, py_codec encoding [] = Ok [].
Proof.
  apply (index_error_only_on_empty_text py_codec []
           (Some (str "latin1")) None None py_codec_no_index_error).
  vm_compute. reflexivity.
Defined.

Lemma linking_before_document_witness :
  decode py_codec [xe9] None (Some (str "latin1")) (Some (str "utf-16-le"))
  = Ok (Some [233]) /\
  decode py_codec [xe9] None (Some (str "ascii")) (Some (str "latin1"))
  = Ok (Some [233]).
Proof.
  destruct (linking_before_document py_codec [xe9] None (str "latin1") [233])
    as [H1 H2]; try (vm_compute; reflexivity); try discriminate.
  split.
  - apply H1.
  - apply H2. right. exists (str "ascii"). split; [reflexivity|].
    right. reflexivity.
Defined.

Lemma unusable_metadata_is_ignored_witness :
  decode py_codec [xe9] (Some (str "ascii")) (Some (str "latin1")) None
  = decode py_codec [xe9] None (Some (str "latin1")) None.
Proof.
  destruct (unusable_metadata_is_ignored py_codec [xe9]
              (Some (str "ascii")) (Some (str "latin1")) None) as (H & _ & _).
  apply H. right. exists (str "ascii"). split; [reflexivity|].
  right. reflexivity.
Defined.

Lemma sniff_acceptance_witness :
  sniff py_codec ENCODING_MAGIC_NUMBERS [xef; xbb; xbf; x61]
  = Ok (Some [97]).
Proof.
  apply (sniff_acceptance py_codec [xef; xbb; xbf; x61]
           (3%nat, Name (str "UTF-8"), re_lit (hex2re "EF BB BF"))
           {| group1 := None |} (str "UTF-8") [97]).
  - vm_compute. reflexivity.
  - reflexivity.
  - vm_compute. reflexivity.
  - discriminate.
Defined.

Lemma Slice_nth_witness :
  nth_error (Slice 1 2 [x00; x55; x00; x54; x00; x46]) 2 = Some x46.
Proof.
  rewrite (Slice_nth 1 2 [x00; x55; x00; x54; x00; x46] 2); [reflexivity|lia].
Defined.

Lemma at_charset_pattern_matches_witness :
  re_match
    (re_lit_group_lit (hex2re "40 63 68 61 72 73 65 74 20 22")
                      [any_but_quote] (hex2re "22 3B"))
    (encode_form (Ascii false) (ascii_bytes "utf-8") (ascii_bytes "a{}"))
  = Some {| group1 := Some (ascii_bytes "utf-8") |}.
Proof.
  apply (proj2 (at_charset_pattern_matches (Ascii false)
                  (0%nat, AsSpecified (Slice 0 1) (str EmptyString),
                   re_lit_group_lit (hex2re "40 63 68 61 72 73 65 74 20 22")
                                    [any_but_quote] (hex2re "22 3B"))
                  _ _ eq_refl)).
  exists (ascii_bytes "utf-8"), (ascii_bytes "a{}").
  repeat split. repeat constructor; discriminate.
Defined.

Lemma declared_name_is_clean_witness :
  ~ In dquote (str "UTF-16-BE") /\
  Forall (fun c => c < 128 \/ c = 0xFFFD) (str "UTF-16-BE").
Proof.
  apply (declared_name_is_clean (Utf16 true false)
           (0%nat, AsSpecified (Slice 1 2) (str "-BE"),
            re_lit_group_lit (form_prefix (Utf16 true false))
                             (form_unit (Utf16 true false))
                             (form_suffix (Utf16 true false)))
           {| group1 := Some (flat_map (widen (Utf16 true false))
                                       (ascii_bytes "UTF-16")) |}
           (encode_form (Utf16 true false) (ascii_bytes "UTF-16") [])).
  - reflexivity.
  - vm_compute. reflexivity.
  - vm_compute. reflexivity.
Defined.

Lemma at_charset_patterns_disjoint_witness :
  Utf32 false true = Utf32 false true.
Proof.
  apply (at_charset_patterns_disjoint (Utf32 false true) (Utf32 false true)
           (4%nat, AsSpecified (Slice 0 4) (str "-LE"),
            re_lit_group_lit (form_prefix (Utf32 false true))
                             (form_unit (Utf32 false true))
                             (form_suffix (Utf32 false true)))
           (4%nat, AsSpecified (Slice 0 4) (str "-LE"),
            re_lit_group_lit (form_prefix (Utf32 false true))
                             (form_unit (Utf32 false true))
                             (form_suffix (Utf32 false true)))
           {| group1 := Some [] |} {| group1 := Some [] |}
           (encode_form (Utf32 false true) [] []));
    first [reflexivity | vm_compute; reflexivity].
Defined.

Lemma every_entry_is_first_match_witness :
  exists css_bytes m,
    first_match ENCODING_MAGIC_NUMBERS css_bytes
    = Some ((2%nat, Name (str "UTF-16-LE"), re_lit (hex2re "FF FE")), m).
Proof.
  apply (every_entry_is_first_match 14). reflexivity.
Defined.

Lemma short_input_matches_nothing_witness :
  no_signature ENCODING_MAGIC_NUMBERS [xff] /\
  decode py_codec [xff] None None None
  = try_encoding py_codec [xff] (str "utf8") false.
Proof.
  apply (short_input_matches_nothing py_codec [xff]). simpl. lia.
Defined.

Lemma utf8_bom_sheet_witness :
  decode py_codec (xef :: xbb :: xbf :: ascii_bytes "a{}") None None None
  = Ok (Some (str "a{}")).
Proof.
  apply (utf8_bom_sheet py_codec (ascii_bytes "a{}") (str "a{}")).
  - intros (E & rest & H). discriminate.
  - reflexivity.
  - reflexivity.
  - reflexivity.
Defined.

Lemma at_charset_rule_beats_metadata_witness :
  decode py_codec
    (encode_form (Utf16 false true) (ascii_bytes "UTF-16")
       (hex2re "61 00 E9 00"))
    None (Some (str "latin1")) (Some (str "ascii"))
  = Ok (Some (at_charset_text (str "UTF-16") ++ [97; 233])).
Proof.
  apply (at_charset_rule_beats_metadata py_codec (Utf16 false true)
           (ascii_bytes "UTF-16") (hex2re "61 00 E9 00") [97; 233]).
  - apply name_check. vm_compute. reflexivity.
  - vm_compute. reflexivity.
Defined.

Lemma protocol_tier_wins_witness :
  decode py_codec (at_charset_rule (ascii_bytes "utf-8") ++ [xe9])
    (Some (str "latin1")) None None
  = Ok (Some (at_charset_text (str "utf-8") ++ [233])).
Proof.
  apply (protocol_tier_wins py_codec ENCODING_MAGIC_NUMBERS
           (at_charset_rule (ascii_bytes "utf-8") ++ [xe9]) (str "latin1")
           None None (at_charset_text (str "utf-8") ++ [233])).
  - discriminate.
  - reflexivity.
  - discriminate.
Defined.

Lemma plain_ascii_decodes_as_utf8_witness :
  sniff py_codec ENCODING_MAGIC_NUMBERS (ascii_bytes "@import url(a.css);")
  = Ok None /\
  decode py_codec (ascii_bytes "@import url(a.css);") None None None
  = Ok (Some (str "@import url(a.css);")).
Proof.
  apply (plain_ascii_decodes_as_utf8 py_codec
           (ascii_bytes "@import url(a.css);")).
  - discriminate.
  - repeat constructor; vm_compute; reflexivity.
  - intros (E & rest & H). discriminate.
  - reflexivity.
Defined.

Lemma roundtrip_all_forms_witness :
  decode py_codec
    (encode_text (Utf16 true true)
       (at_charset_text (str "UTF-16") ++ [0x1F600; 233]))
    None None None
  = Ok (Some (at_charset_text (str "UTF-16") ++ [0x1F600; 233])).
Proof.
  apply (roundtrip_all_forms (Utf16 true true) [0x1F600; 233]).
  repeat constructor; unfold Codecs.scalar_value; lia.
Defined.

Lemma roundtrip_explicit_names_witness :
  decode py_codec
    (encode_text (Utf16 false true)
       (at_charset_text (str "utf-16le") ++ [0x1F600; 233]))
    None None None
  = Ok (Some (at_charset_text (str "utf-16le") ++ [0x1F600; 233])).
Proof.
  apply (roundtrip_explicit_names (Utf16 false true) [0x1F600; 233]).
  repeat constructor; unfold Codecs.scalar_value; lia.
Defined.
